(** * Ultimate tic-tac-toe: a shallow embedding of [tic-tac-toe.py]

    Nine 3x3 instance boards sit in a 3x3 meta board.  The Python code keeps
    every board as a NumPy integer array and draws all its choices from the
    [random] module.  Here

    - a 3x3 array is a [grid], a triple of triples, indexed by [idx] (the
      integers 0, 1, 2 that [np.argwhere] and [random.choice([0, 1, 2])]
      produce);
    - a cell holds an integer ([Z]): 0 for an unfilled cell, a player's
      [property_value] otherwise, 101 for the scratch marker of the searches;
    - the [random] module is a [RandomSource], an infinite tape of raw draws
      with a cursor, threaded through every function that draws;
    - in-place mutation of an array is explicit state passing: a function
      that mutates its argument returns the new array;
    - recursion without a bound and [while] loops take fuel; [None] means the
      fuel ran out (for [choose_board], that the recursion went deeper than
      the depth allowed).

    Cell values are unbounded integers; the players of the program hold 1
    and -1, far inside the range of NumPy's 64-bit cells. *)

From Stdlib Require Import Ascii String ZArith List Bool Arith Lia.
Import ListNotations.

Open Scope Z_scope.

(** ** 3x3 arrays *)

Module Grid.

Inductive idx : Type := I0 | I1 | I2.

Definition idx_eqb (i j : idx) : bool :=
  match i, j with
  | I0, I0 | I1, I1 | I2, I2 => true
  | _, _ => false
  end.

Record triple (A : Type) : Type := Triple { t0 : A; t1 : A; t2 : A }.
Arguments Triple {A} _ _ _.
Arguments t0 {A} _.
Arguments t1 {A} _.
Arguments t2 {A} _.

Definition tget {A} (t : triple A) (i : idx) : A :=
  match i with I0 => t0 t | I1 => t1 t | I2 => t2 t end.

Definition tset {A} (t : triple A) (i : idx) (a : A) : triple A :=
  match i with
  | I0 => Triple a (t1 t) (t2 t)
  | I1 => Triple (t0 t) a (t2 t)
  | I2 => Triple (t0 t) (t1 t) a
  end.

(** [grid A] is an array of shape (3, 3) with entries in [A]. *)
Definition grid (A : Type) : Type := triple (triple A).

(** A pair of indices, as in [instance_board[x, y]]. *)
Definition cell : Type := (idx * idx)%type.

Definition cell_eqb (c d : cell) : bool :=
  idx_eqb (fst c) (fst d) && idx_eqb (snd c) (snd d).

Definition get {A} (g : grid A) (c : cell) : A := tget (tget g (fst c)) (snd c).

Definition set {A} (g : grid A) (c : cell) (a : A) : grid A :=
  tset g (fst c) (tset (tget g (fst c)) (snd c) a).

Definition full {A} (a : A) : grid A :=
  Triple (Triple a a a) (Triple a a a) (Triple a a a).

Definition indices : list idx := [I0; I1; I2].

(** Every index pair, in the row-major order of [np.argwhere]. *)
Definition cells : list cell := list_prod indices indices.

End Grid.

Import Grid.

(** ** The [random] module *)

Record RandomSource : Type := { draws : nat -> nat; cursor : nat }.

Definition advance (k : nat) (g : RandomSource) : RandomSource :=
  {| draws := draws g; cursor := (k + cursor g)%nat |}.

(** A computation that may draw random numbers and may run out of fuel. *)
Definition M (A : Type) : Type := RandomSource -> option (A * RandomSource).

Definition ret {A} (a : A) : M A := fun g => Some (a, g).

Definition bind {A B} (m : M A) (k : A -> M B) : M B :=
  fun g => match m g with
           | Some (a, g') => k a g'
           | None => None
           end.

Definition out_of_fuel {A} : M A := fun _ => None.

Notation "x <- m ;; k" := (bind m (fun x => k))
  (at level 61, m at next level, right associativity).
Notation "' p <- m ;; k" := (bind m (fun x => match x with p => k end))
  (at level 61, p pattern, m at next level, right associativity).

(** [random.randint(lo, hi)]: an integer between [lo] and [hi], both included. *)
Definition randint (lo hi : nat) : M nat :=
  fun g => Some ((lo + draws g (cursor g) mod (hi - lo + 1))%nat, advance 1 g).

(** [random.choice(seq)] on the non-empty sequence [x :: xs]. *)
Definition choice {A} (x : A) (xs : list A) : M A :=
  fun g => Some (nth (draws g (cursor g) mod length (x :: xs)) (x :: xs) x, advance 1 g).

(** ** Players and move status *)

Inductive Status : Type := OFFENSE | DEFENSE | RANDOM | FULL.

Record Player : Type := { name : string; property_value : Z }.

(** The two module-level players of [__main__]. *)
Definition P1 : Player := {| name := "Bot1"%string; property_value := 1 |}.
Definition P2 : Player := {| name := "Bot2"%string; property_value := -1 |}.

(** The marker the searches leave on tried cells of their scratch copy. *)
Definition attempts_tracker : Player := {| name := "Tracker"%string; property_value := 101 |}.

(** ** One instance board *)

Definition Board : Type := grid Z.

(** [np.zeros((3, 3), dtype=int)] *)
Definition create_board : Board := full 0.

(** [np.argwhere(instance_board == 0)] *)
Definition find_available_cells (instance_board : Board) : list cell :=
  filter (fun c => get instance_board c =? 0) cells.

Definition pick_cell_randomly (instance_board : Board) : M (option cell) :=
  let cells_available := find_available_cells instance_board in
  let cells_available_max := length cells_available in
  if (0 <? cells_available_max)%nat then
    random_cell <- randint 0 (cells_available_max - 1) ;;
    ret (nth_error cells_available random_cell)
  else
    ret None.

(** [instance_board[cell_indices] = player.property_value] *)
Definition assign_cell (instance_board : Board) (cell_indices : cell) (player : Player) : Board :=
  set instance_board cell_indices (property_value player).

(** [np.all(line == player_val)] *)
Definition np_all_eq (line : list Z) (player_val : Z) : bool :=
  forallb (fun x => x =? player_val) line.

Definition row (b : Board) (i : idx) : list Z := map (fun j => get b (i, j)) indices.
Definition column (b : Board) (j : idx) : list Z := map (fun i => get b (i, j)) indices.

Definition check_winner (instance_board : Board) (player : Player) : bool :=
  let player_val := property_value player in
  let row_check :=
    np_all_eq (row instance_board I0) player_val
    || np_all_eq (row instance_board I1) player_val
    || np_all_eq (row instance_board I2) player_val in
  let column_check :=
    np_all_eq (column instance_board I0) player_val
    || np_all_eq (column instance_board I1) player_val
    || np_all_eq (column instance_board I2) player_val in
  let diagonal_check :=
    np_all_eq (map (get instance_board) (combine indices (rev indices))) player_val
    || np_all_eq (map (fun i => get instance_board (i, i)) indices) player_val in
  row_check || column_check || diagonal_check.

(** ** The move selector *)

Definition random_move (instance_board : Board) (player : Player) : M (bool * Board) :=
  cells_picked <- pick_cell_randomly instance_board ;;
  match cells_picked with
  | Some c => ret (true, assign_cell instance_board c player)
  | None => ret (false, instance_board)
  end.

(** The [while cells_picked:] loop that [offensive_move] and [defensive_move]
    share word for word, up to the player whose mark is tried ([trial]): it
    returns the cell that wins for [trial] on the scratch copy, or [None] when
    the loop ends without one. *)
Fixpoint search_loop (fuel : nat) (board_copy : Board) (trial : Player)
    (cells_picked : option cell) : M (option cell) :=
  match cells_picked with
  | None => ret None
  | Some c =>
      match fuel with
      | O => out_of_fuel
      | S fuel' =>
          let board_copy := assign_cell board_copy c trial in
          if check_winner board_copy trial then ret (Some c)
          else
            let board_copy := assign_cell board_copy c attempts_tracker in
            cells_picked <- pick_cell_randomly board_copy ;;
            search_loop fuel' board_copy trial cells_picked
      end
  end.

(** A board has nine cells, and every turn of the loop uses one up. *)
Definition search_fuel : nat := 9.

(** [opponent_player = P2 if player.property_value == 1 else P1] *)
Definition opponent_player (player : Player) : Player :=
  if property_value player =? 1 then P2 else P1.

(** [instance_board.copy()] is a value of its own: the searches write on
    [board_copy], and the real board is written once, at the commit. *)
Definition defensive_move (instance_board : Board) (player : Player) : M (bool * Board) :=
  let board_copy := instance_board in
  cells_picked <- pick_cell_randomly board_copy ;;
  found <- search_loop search_fuel board_copy (opponent_player player) cells_picked ;;
  match found with
  | Some c => ret (true, assign_cell instance_board c player)
  | None => ret (false, instance_board)
  end.

Definition offensive_move (instance_board : Board) (player : Player) : M (bool * Board) :=
  let board_copy := instance_board in
  cells_picked <- pick_cell_randomly board_copy ;;
  found <- search_loop search_fuel board_copy player cells_picked ;;
  match found with
  | Some c => ret (true, assign_cell instance_board c player)
  | None => ret (false, instance_board)
  end.

Definition fill_cell (instance_board : Board) (player : Player) : M (Status * Board) :=
  '(won, instance_board) <- offensive_move instance_board player ;;
  if negb won then
    '(blocked, instance_board) <- defensive_move instance_board player ;;
    if negb blocked then
      '(moved, instance_board) <- random_move instance_board player ;;
      if negb moved then ret (FULL, instance_board)
      else ret (RANDOM, instance_board)
    else ret (DEFENSE, instance_board)
  else ret (OFFENSE, instance_board).

(** ** The meta game *)

(** The meta board has shape (3, 3, 3, 3): one instance board per position.
    [meta_board[x, y]] is a view, so a move on the current board is a move
    inside the meta board; here the board is read with [get] and written
    back with [set]. *)
Definition MetaBoard : Type := grid Board.

Definition choose_player (current_player : option Player) : M Player :=
  match current_player with
  | Some p => if property_value p =? 1 then ret P2 else ret P1
  | None => choice P1 [P2]
  end.

(** [np.all(instance_board != 0)] *)
Definition is_board_complete (instance_board : Board) : bool :=
  forallb (fun c => negb (get instance_board c =? 0)) cells.

Definition update_meta_results (meta_board_results : Board) (board_pos : cell)
    (player : Player) : Board :=
  set meta_board_results board_pos (property_value player).

Definition reset_board (meta_board : MetaBoard) (meta_board_results : Board)
    (board_pos : cell) : MetaBoard * Board :=
  (set meta_board board_pos create_board, set meta_board_results board_pos 0).

(** [fuel] bounds the depth of the recursion. *)
Fixpoint choose_board (fuel : nat) (meta_board : MetaBoard) (meta_board_results : Board)
    : M (MetaBoard * Board * cell) :=
  match fuel with
  | O => out_of_fuel
  | S fuel' =>
      x <- choice I0 [I1; I2] ;;
      y <- choice I0 [I1; I2] ;;
      let '(meta_board, meta_board_results) :=
        if is_board_complete meta_board_results
        then reset_board meta_board meta_board_results (x, y)
        else (meta_board, meta_board_results) in
      let current_choice := get meta_board_results (x, y) in
      if current_choice =? 0 then ret (meta_board, meta_board_results, (x, y))
      else choose_board fuel' meta_board meta_board_results
  end.

(** ** The driver of a game between two bots *)

(** The local variables of [play_meta_game_bots]. *)
Record GameState : Type := {
  meta_board : MetaBoard;
  meta_board_results : Board;
  current_player : Player;
  current_board_pos : cell;
  status : Status
}.

(** What the driver does with the status of the last move, at the top of the
    loop body. *)
Definition resolve (meta_board : MetaBoard) (meta_board_results : Board)
    (board_pos : cell) (status : Status) (player : Player) : MetaBoard * Board :=
  match status with
  | FULL => reset_board meta_board meta_board_results board_pos
  | OFFENSE => (meta_board, update_meta_results meta_board_results board_pos player)
  | DEFENSE | RANDOM => (meta_board, meta_board_results)
  end.

(** The three statements that make a move: before the loop with no previous
    player, and at the end of the loop body. *)
Definition take_turn (depth : nat) (meta_board : MetaBoard) (meta_board_results : Board)
    (previous : option Player) : M GameState :=
  current_player <- choose_player previous ;;
  '(meta_board, meta_board_results, current_board_pos) <-
     choose_board depth meta_board meta_board_results ;;
  '(status, current_board) <- fill_cell (get meta_board current_board_pos) current_player ;;
  ret {| meta_board := set meta_board current_board_pos current_board;
         meta_board_results := meta_board_results;
         current_player := current_player;
         current_board_pos := current_board_pos;
         status := status |}.

Definition nobody_won (meta_board_results : Board) : bool :=
  negb (check_winner meta_board_results P1) && negb (check_winner meta_board_results P2).

Definition loop_body (depth : nat) (s : GameState) : M GameState :=
  let '(meta_board, meta_board_results) :=
    resolve (meta_board s) (meta_board_results s) (current_board_pos s)
            (status s) (current_player s) in
  take_turn depth meta_board meta_board_results (Some (current_player s)).

Fixpoint bots_loop (turns depth : nat) (s : GameState) : M GameState :=
  if nobody_won (meta_board_results s) then
    match turns with
    | O => out_of_fuel
    | S turns' =>
        s' <- loop_body depth s ;;
        bots_loop turns' depth s'
    end
  else ret s.

Definition initial_meta_board : MetaBoard := full create_board.
Definition initial_meta_board_results : Board := full 0.

(** The driver up to its last line: the state in which the loop ends. *)
Definition play_meta_game_bots_run (turns depth : nat) : M GameState :=
  s <- take_turn depth initial_meta_board initial_meta_board_results None ;;
  bots_loop turns depth s.

Definition play_meta_game_bots (turns depth : nat) : M Player :=
  s <- play_meta_game_bots_run turns depth ;;
  if check_winner (meta_board_results s) P2 then ret P2 else ret P1.

(** ** The driver of a game between a human and a bot *)

(** [play_meta_game] reads the human's moves with [input].  The lines typed
    are a list of strings, taken to be ASCII text so that a character of
    the Python string is a character here; [print] has no effect on the
    game and is left out.  Nothing in the code catches an exception. *)
Inductive Exception : Type := EOFError | IndexError | ValueError.

(** [int(c)] for a one-character string: a decimal digit, or [ValueError]. *)
Definition int_of_char (c : ascii) : option nat :=
  let n := nat_of_ascii c in
  if ((48 <=? n) && (n <=? 57))%nat then Some (n - 48)%nat else None.

(** [int(line[i])] *)
Definition int_at (line : string) (i : nat) : Exception + nat :=
  match String.get i line with
  | None => inl IndexError
  | Some c =>
      match int_of_char c with
      | Some n => inr n
      | None => inl ValueError
      end
  end.

(** [(int(line[0]), int(line[2]))], evaluated from left to right. *)
Definition read_coord (line : string) : Exception + (nat * nat) :=
  match int_at line 0 with
  | inl e => inl e
  | inr a =>
      match int_at line 2 with
      | inl e => inl e
      | inr b => inr (a, b)
      end
  end.

(** An index into an axis of length 3; NumPy raises [IndexError] beyond. *)
Definition index3 (n : nat) : option idx :=
  match n with
  | 0%nat => Some I0
  | 1%nat => Some I1
  | 2%nat => Some I2
  | _ => None
  end.

Definition index_pair (coord : nat * nat) : Exception + cell :=
  match index3 (fst coord), index3 (snd coord) with
  | Some i, Some j => inr (i, j)
  | _, _ => inl IndexError
  end.

(** [P1] and [P2] as [__main__] renames them before a game with a human. *)
Definition human_player : Player := {| name := "Human"%string; property_value := 1 |}.
Definition bot_player : Player := {| name := "Bot"%string; property_value := -1 |}.

(** The human's half of a turn: two lines are read, the first selects the
    instance board, the second the cell, which is written without a look
    at what it holds; a win on that board is recorded. *)
Definition human_move (meta_board : MetaBoard) (meta_board_results : Board)
    (inputs : list string) : Exception + (MetaBoard * Board * list string) :=
  match inputs with
  | [] => inl EOFError
  | instance_board_coord :: inputs =>
      match read_coord instance_board_coord with
      | inl e => inl e
      | inr coord =>
          match index_pair coord with
          | inl e => inl e
          | inr board_pos =>
              let instance_board := get meta_board board_pos in
              match inputs with
              | [] => inl EOFError
              | cell_coord_raw :: inputs =>
                  match read_coord cell_coord_raw with
                  | inl e => inl e
                  | inr coord =>
                      match index_pair coord with
                      | inl e => inl e
                      | inr cell_coord =>
                          let instance_board :=
                            assign_cell instance_board cell_coord human_player in
                          let meta_board := set meta_board board_pos instance_board in
                          let meta_board_results :=
                            if check_winner instance_board human_player
                            then update_meta_results meta_board_results board_pos
                                   human_player
                            else meta_board_results in
                          inr (meta_board, meta_board_results, inputs)
                      end
                  end
              end
          end
      end
  end.

(** The bot's half of a turn. *)
Definition bot_move (depth : nat) (meta_board : MetaBoard) (meta_board_results : Board)
    : M (MetaBoard * Board) :=
  '(meta_board, meta_board_results, current_board_pos) <-
     choose_board depth meta_board meta_board_results ;;
  '(status, current_board) <- fill_cell (get meta_board current_board_pos) bot_player ;;
  let meta_board := set meta_board current_board_pos current_board in
  ret (resolve meta_board meta_board_results current_board_pos status bot_player).

(** How a game with a human ends: with a winner, with an exception, or not
    within the fuel given. *)
Inductive Outcome : Type :=
| Won (winner : Player) (meta_board : MetaBoard) (meta_board_results : Board)
      (inputs : list string)
| Raised (e : Exception)
| Unfinished.

Fixpoint human_loop (turns depth : nat) (meta_board : MetaBoard)
    (meta_board_results : Board) (inputs : list string) (g : RandomSource) : Outcome :=
  if negb (check_winner meta_board_results human_player)
     && negb (check_winner meta_board_results bot_player) then
    match turns with
    | O => Unfinished
    | S turns' =>
        match human_move meta_board meta_board_results inputs with
        | inl e => Raised e
        | inr (meta_board, meta_board_results, inputs) =>
            match bot_move depth meta_board meta_board_results g with
            | None => Unfinished
            | Some ((meta_board, meta_board_results), g) =>
                human_loop turns' depth meta_board meta_board_results inputs g
            end
        end
    end
  else
    Won (if check_winner meta_board_results bot_player then bot_player else human_player)
        meta_board meta_board_results inputs.

(** [play_meta_game]; beside the winner, the outcome carries the boards and
    the lines left unread when the game ends. *)
Definition play_meta_game (turns depth : nat) (inputs : list string)
    (g : RandomSource) : Outcome :=
  human_loop turns depth initial_meta_board initial_meta_board_results inputs g.

(** * Vocabulary of the statements *)

(** ** Lines and placements *)

(** The eight lines of a board: three rows, three columns, two diagonals. *)
Definition winning_lines : list (list cell) :=
  map (fun i => map (fun j => (i, j)) indices) indices
  ++ map (fun j => map (fun i => (i, j)) indices) indices
  ++ [combine indices (rev indices); map (fun i => (i, i)) indices].

Definition line_of (b : Board) (v : Z) (l : list cell) : Prop :=
  forall c, In c l -> get b c = v.

Definition available (b : Board) (c : cell) : Prop := get b c = 0.

Definition has_winning_placement (b : Board) (p : Player) : Prop :=
  exists c, available b c /\ check_winner (assign_cell b c p) p = true.

(** What a pick is to the board it was drawn from. *)
Definition picked_from (b : Board) (cells_picked : option cell) : Prop :=
  match cells_picked with
  | Some c => available b c
  | None => forall c, ~ available b c
  end.

(** What each status of [fill_cell] says about the board before and after. *)
Definition fill_cell_post (b : Board) (p : Player) (st : Status) (b' : Board) : Prop :=
  match st with
  | OFFENSE =>
      exists c, b' = assign_cell b c p /\ available b c /\
                (property_value p <> 101 -> check_winner b' p = true)
  | DEFENSE =>
      ~ has_winning_placement b p /\
      exists c, b' = assign_cell b c p /\ available b c /\
                check_winner (assign_cell b c (opponent_player p)) (opponent_player p) = true
  | RANDOM =>
      ~ has_winning_placement b p /\
      ~ has_winning_placement b (opponent_player p) /\
      exists c, b' = assign_cell b c p /\ available b c
  | FULL => b' = b /\ forall c, ~ available b c
  end.

(** ** Draws and turns *)

(** The position that the [k]-th attempt of [choose_board] draws: two draws
    per attempt, first [x], then [y]. *)
Definition attempt (g : RandomSource) (k : nat) : cell :=
  (nth (draws g (2 * k + cursor g) mod 3) indices I0,
   nth (draws g (S (2 * k + cursor g)) mod 3) indices I0).

(** The [k]-th attempt is the first to draw a position with an empty meta
    result. *)
Definition first_undecided (res : Board) (g : RandomSource) (k : nat) : Prop :=
  (forall j, (j < k)%nat -> get res (attempt g j) <> 0) /\
  get res (attempt g k) = 0.

(** The first [n] turns of the loop of [play_meta_game_bots], each entered
    because nobody has won. *)
Fixpoint bots_turns (n depth : nat) (s : GameState) : M GameState :=
  match n with
  | O => ret s
  | S n' =>
      if nobody_won (meta_board_results s) then
        s' <- loop_body depth s ;;
        bots_turns n' depth s'
      else out_of_fuel
  end.

(** The driver after the first move and [n] turns of the loop. *)
Definition bots_after (n depth : nat) : M GameState :=
  s <- take_turn depth initial_meta_board initial_meta_board_results None ;;
  bots_turns n depth s.

(** ** Example boards, players and random sources *)

Definition board_of_rows (r0 r1 r2 : Z * Z * Z) : Board :=
  let mk := fun '(a, b, c) => Triple a b c in
  Triple (mk r0) (mk r1) (mk r2).

(** Row 0 holds two marks of [P1] and an empty cell. *)
Definition board_two_in_row0 : Board :=
  board_of_rows (1, 1, 0) (0, 0, 0) (0, 0, 0).

(** Row 1 holds two marks of [P2] and an empty cell, all else is empty. *)
Definition board_threat_row1 : Board :=
  board_of_rows (0, 0, 0) (-1, -1, 0) (0, 0, 0).

(** A full board where nobody has three in a line. *)
Definition board_tied : Board :=
  board_of_rows (1, -1, 1) (1, -1, -1) (-1, 1, 1).

(** A board on which the value 101 is in play as a mark. *)
Definition board_marker_rows : Board :=
  board_of_rows (-1, -1, 1) (101, 0, 0) (101, 101, 0).

(** Meta results where only position (0,0) is decided. *)
Definition results_corner_decided : Board :=
  board_of_rows (1, 0, 0) (0, 0, 0) (0, 0, 0).

(** A player whose mark is the empty value. *)
Definition empty_player : Player := {| name := "Empty"%string; property_value := 0 |}.

(** A source whose every draw is 0. *)
Definition zero_tape : RandomSource := {| draws := fun _ => 0%nat; cursor := 0 |}.

(** A source whose first two draws are 0 and whose later draws are 1. *)
Definition tape_second_hit : RandomSource :=
  {| draws := fun n => if (n <? 2)%nat then 0%nat else 1%nat; cursor := 0 |}.

(** A source for a whole game: the first 500 outputs of a linear
    congruential generator, reduced below 72; every later draw is 0. *)
Fixpoint lcg (n : nat) (x : Z) : list nat :=
  match n with
  | O => []
  | S n' =>
      let x' := (x * 1103515245 + 12345) mod 2147483648 in
      Z.to_nat ((x' / 65536) mod 72) :: lcg n' x'
  end.

Definition lcg_draws : list nat := Eval vm_compute in lcg 500 30.

Definition lcg_tape : RandomSource :=
  {| draws := fun n => nth n lcg_draws 0%nat; cursor := 0 |}.

(** ** Invariants of a game between two bots *)

(** The values a cell takes in a game: empty, [P1]'s, [P2]'s. *)
Definition mark_value (v : Z) : Prop := v = 0 \/ v = 1 \/ v = -1.

Definition valid_board (b : Board) : Prop := forall c, mark_value (get b c).

(** Boards and meta results agree: every cell holds a mark value, and where
    a meta result is not empty the instance board has three in a line of
    that value. *)
Definition consistent (mb : MetaBoard) (res : Board) : Prop :=
  (forall pos, valid_board (get mb pos)) /\
  valid_board res /\
  (forall pos w, property_value w <> 0 ->
                 get res pos = property_value w ->
                 check_winner (get mb pos) w = true).

(** What holds of the driver's variables each time the loop tests the
    winner: the last move was made by [P1] or [P2] on a position whose meta
    result is still empty, and an [OFFENSE] move has won that board. *)
Definition game_invariant (s : GameState) : Prop :=
  consistent (meta_board s) (meta_board_results s) /\
  (current_player s = P1 \/ current_player s = P2) /\
  get (meta_board_results s) (current_board_pos s) = 0 /\
  (status s = OFFENSE ->
   check_winner (get (meta_board s) (current_board_pos s)) (current_player s) = true).

(** The states of a game on the source [g]: those in which the loop tests
    the winner, and the one in which the game ends. *)
Definition reached (depth : nat) (g : RandomSource) (s : GameState) : Prop :=
  (exists n g', bots_after n depth g = Some (s, g'))
  \/ (exists turns g', play_meta_game_bots_run turns depth g = Some (s, g')).

(** The number [random.choice([0, 1, 2])] returns for an index. *)
Definition nat_of_idx (i : idx) : nat :=
  match i with I0 => 0 | I1 => 1 | I2 => 2 end.

(** A source whose first draw selects row [fst pos] and whose later draws
    select column [snd pos]. *)
Definition tape_for_position (pos : cell) : RandomSource :=
  {| draws := fun n => match n with
                       | O => nat_of_idx (fst pos)
                       | S _ => nat_of_idx (snd pos)
                       end;
     cursor := 0 |}.

(** ** A game with a human *)

(** The position a typed line selects. *)
Definition typed_position (line : string) : Exception + cell :=
  match read_coord line with
  | inl e => inl e
  | inr coord => index_pair coord
  end.

(** Lines with which the human fills row 0 of the three boards of row 0. *)
Definition lines_top_row : list string :=
  ["0,0"; "0,0"; "0,0"; "0,1"; "0,0"; "0,2";
   "0,1"; "0,0"; "0,1"; "0,1"; "0,1"; "0,2";
   "0,2"; "0,0"; "0,2"; "0,1"; "0,2"; "0,2"]%string.

(** * Properties *)

(** ** Arrays *)

Module GridFacts.

Lemma idx_eqb_eq (i j : idx) : idx_eqb i j = true <-> i = j.
Proof. destruct i, j; simpl; split; congruence. Qed.

Lemma cell_eqb_eq (c d : cell) : cell_eqb c d = true <-> c = d.
Proof.
  destruct c as [i j], d as [i' j']; unfold cell_eqb; simpl.
  rewrite andb_true_iff, !idx_eqb_eq. split.
  - intros [-> ->]; reflexivity.
  - intros H; inversion H; auto.
Qed.

Lemma cell_eq_dec (c d : cell) : {c = d} + {c <> d}.
Proof.
  destruct (cell_eqb c d) eqn:E.
  - left; now apply cell_eqb_eq.
  - right; intros H; apply cell_eqb_eq in H; congruence.
Qed.

Lemma get_set_same {A} (g : grid A) (c : cell) (a : A) : get (set g c a) c = a.
Proof. destruct c as [[] []]; reflexivity. Qed.

Lemma get_set_other {A} (g : grid A) (c d : cell) (a : A) :
  c <> d -> get (set g c a) d = get g d.
Proof. destruct c as [[] []], d as [[] []]; intros H; try reflexivity; congruence. Qed.

Lemma set_set {A} (g : grid A) (c : cell) (a a' : A) : set (set g c a) c a' = set g c a'.
Proof. destruct c as [[] []]; reflexivity. Qed.

Lemma get_full {A} (a : A) (c : cell) : get (full a) c = a.
Proof. destruct c as [[] []]; reflexivity. Qed.

Lemma in_cells (c : cell) : In c cells.
Proof. destruct c as [[] []]; simpl; tauto. Qed.

Lemma length_cells : length cells = 9%nat.
Proof. reflexivity. Qed.

End GridFacts.

Import GridFacts.

(** ** Three in a line *)

Lemma check_winner_existsb (b : Board) (p : Player) :
  check_winner b p =
  existsb (forallb (fun c => get b c =? property_value p)) winning_lines.
Proof.
  unfold check_winner, winning_lines, np_all_eq, row, column, indices; cbn.
  repeat match goal with
         | |- context [?x =? property_value p] =>
             is_var b; destruct (x =? property_value p)
         end; reflexivity.
Qed.

(** [check_winner] holds exactly when one of the eight lines is filled with
    the player's value. *)
Lemma check_winner_iff (b : Board) (p : Player) :
  check_winner b p = true <->
  exists l, In l winning_lines /\ line_of b (property_value p) l.
Proof.
  rewrite check_winner_existsb, existsb_exists.
  split; intros (l & Hl & H); exists l; split; auto.
  - rewrite forallb_forall in H. intros c Hc. now apply Z.eqb_eq, H.
  - apply forallb_forall. intros c Hc. now apply Z.eqb_eq, H.
Qed.

(** No line is a single cell. *)
Lemma line_has_other (l : list cell) (c : cell) :
  In l winning_lines -> exists d, In d l /\ d <> c.
Proof.
  intros Hl.
  assert (H : existsb (fun d => negb (cell_eqb d c)) l = true).
  { simpl in Hl. repeat (destruct Hl as [<-|Hl]; [destruct c as [[] []]; reflexivity|]).
    contradiction. }
  apply existsb_exists in H. destruct H as (d & Hd & Hne).
  exists d. split; auto. intros ->.
  rewrite (proj2 (cell_eqb_eq c c) eq_refl) in Hne. discriminate.
Qed.

(** A board that has the player's value wherever another has it wins
    whenever the other does. *)
Lemma check_winner_mono (b b' : Board) (p : Player) :
  (forall c, get b c = property_value p -> get b' c = property_value p) ->
  check_winner b p = true -> check_winner b' p = true.
Proof.
  intros H. rewrite !check_winner_iff. intros (l & Hl & Hline).
  exists l; split; auto. intros c Hc. apply H, Hline, Hc.
Qed.

(** ** Available cells and random picks *)

Lemma find_available_cells_In (b : Board) (c : cell) :
  In c (find_available_cells b) <-> available b c.
Proof.
  unfold find_available_cells, available. rewrite filter_In, Z.eqb_eq.
  split; [tauto | split; auto using in_cells].
Qed.

Lemma find_available_cells_nil (b : Board) :
  find_available_cells b = [] <-> forall c, ~ available b c.
Proof.
  split.
  - intros H c Hc. apply find_available_cells_In in Hc. rewrite H in Hc. exact Hc.
  - intros H. destruct (find_available_cells b) as [|c l] eqn:E; auto.
    exfalso. apply (H c), find_available_cells_In. rewrite E. now left.
Qed.

Lemma filter_length_lt {A} (f f' : A -> bool) (l : list A) (a : A) :
  (forall x, f x = true -> f' x = true) ->
  In a l -> f a = false -> f' a = true ->
  (length (filter f l) < length (filter f' l))%nat.
Proof.
  intros Hsub. 
  assert (Hle : forall l', (length (filter f l') <= length (filter f' l'))%nat).
  { induction l' as [|x l' IH]; simpl; auto.
    destruct (f x) eqn:E.
    - rewrite (Hsub x E). simpl. lia.
    - destruct (f' x); simpl; lia. }
  induction l as [|x l IH]; simpl; intros Hin Hf Hf'; [contradiction|].
  destruct Hin as [->|Hin].
  - rewrite Hf, Hf'. simpl. specialize (Hle l). lia.
  - specialize (IH Hin Hf Hf').
    destruct (f x) eqn:E.
    + rewrite (Hsub x E). simpl. lia.
    + destruct (f' x); simpl; lia.
Qed.

(** Marking an available cell with a non-zero value leaves fewer of them. *)
Lemma available_decreases (b : Board) (c : cell) (v : Z) :
  available b c -> v <> 0 ->
  (length (find_available_cells (set b c v)) < length (find_available_cells b))%nat.
Proof.
  intros Hc Hv. unfold find_available_cells.
  apply filter_length_lt with (a := c); auto using in_cells.
  - intros d. destruct (cell_eq_dec c d) as [->|Hd].
    + rewrite get_set_same. intros H. apply Z.eqb_eq in H. contradiction.
    + now rewrite get_set_other.
  - rewrite get_set_same. now apply Z.eqb_neq.
  - now apply Z.eqb_eq.
Qed.

Lemma find_available_cells_length (b : Board) :
  (length (find_available_cells b) <= 9)%nat.
Proof.
  unfold find_available_cells. rewrite <- length_cells. apply filter_length_le.
Qed.

Lemma pick_cell_randomly_spec (b : Board) (g : RandomSource) :
  exists cells_picked g',
    pick_cell_randomly b g = Some (cells_picked, g') /\ picked_from b cells_picked.
Proof.
  unfold pick_cell_randomly.
  destruct (find_available_cells b) as [|c l] eqn:E.
  - simpl. exists None, g. split; auto.
    exact (proj1 (find_available_cells_nil b) E).
  - cbn [length Nat.ltb Nat.leb]. unfold bind, randint, ret.
    set (r := (0 + _)%nat).
    assert (Hr : (r < length (c :: l))%nat).
    { subst r. cbn [length Nat.add].
      replace (S (length l) - 1 - 0 + 1)%nat with (S (length l)) by lia.
      apply Nat.mod_upper_bound. lia. }
    destruct (nth_error (c :: l) r) as [d|] eqn:En.
    + exists (Some d), (advance 1 g). split; auto.
      simpl. apply find_available_cells_In. rewrite E.
      eapply nth_error_In; eauto.
    + apply nth_error_None in En. lia.
Qed.

(** ** The search loop *)

Lemma assign_cell_same (b : Board) (c : cell) (p : Player) :
  get (assign_cell b c p) c = property_value p.
Proof. apply get_set_same. Qed.

Lemma assign_cell_other (b : Board) (c d : cell) (p : Player) :
  c <> d -> get (assign_cell b c p) d = get b d.
Proof. apply get_set_other. Qed.

Lemma assign_cell_twice (b : Board) (c : cell) (p q : Player) :
  assign_cell (assign_cell b c p) c q = assign_cell b c q.
Proof. apply set_set. Qed.

(** The loop ends within nine turns.  The cell it returns was available, and
    wins for [trial] on the board the loop started from unless [trial] plays
    the marker's value; when it returns none, no available cell wins. *)
Lemma search_loop_spec (fuel : nat) :
  forall (board_copy : Board) (trial : Player) (cells_picked : option cell)
         (g : RandomSource),
    (length (find_available_cells board_copy) <= fuel)%nat ->
    picked_from board_copy cells_picked ->
    exists found g',
      search_loop fuel board_copy trial cells_picked g = Some (found, g') /\
      match found with
      | Some c =>
          available board_copy c /\
          (property_value trial <> 101 ->
           check_winner (assign_cell board_copy c trial) trial = true)
      | None =>
          forall c, available board_copy c ->
                    check_winner (assign_cell board_copy c trial) trial = false
      end.
Proof.
  induction fuel as [|fuel IH]; intros b trial picked g Hfuel Hpicked.
  - destruct picked as [c0|]; simpl in *.
    + apply find_available_cells_In in Hpicked.
      destruct (find_available_cells b); [contradiction | simpl in Hfuel; lia].
    + exists None, g. split; auto. intros c Hc. now apply Hpicked in Hc.
  - destruct picked as [c0|]; simpl in Hpicked.
    2:{ exists None, g. split; auto. intros c Hc. now apply Hpicked in Hc. }
    cbn [search_loop]. cbv zeta.
    destruct (check_winner (assign_cell b c0 trial) trial) eqn:Hwin.
    { exists (Some c0), g. split; auto. }
    rewrite assign_cell_twice.
    set (b1 := assign_cell b c0 attempts_tracker).
    assert (Hless : (length (find_available_cells b1) <= fuel)%nat).
    { pose proof (available_decreases b c0 101 Hpicked ltac:(lia)) as H.
      subst b1. unfold assign_cell. simpl property_value. lia. }
    destruct (pick_cell_randomly_spec b1 g) as (picked1 & g1 & Hpick & Hfrom).
    destruct (IH b1 trial picked1 g1 Hless Hfrom) as (found & g' & Hrun & Hfound).
    exists found, g'. split.
    { unfold bind. rewrite Hpick. exact Hrun. }
    assert (Hb1 : forall d, d <> c0 -> get b1 d = get b d).
    { intros d Hd. subst b1. apply assign_cell_other. congruence. }
    assert (Hc0 : get b1 c0 = 101) by (subst b1; apply assign_cell_same).
    destruct found as [c|].
    + destruct Hfound as [Hav Hw].
      assert (Hne : c <> c0).
      { intros ->. unfold available in Hav. lia. }
      split.
      * unfold available in *. now rewrite <- Hb1.
      * intros Htrial. specialize (Hw Htrial).
        revert Hw. apply check_winner_mono. intros d.
        destruct (cell_eq_dec c d) as [<-|Hd].
        { now rewrite !assign_cell_same. }
        rewrite !assign_cell_other by assumption.
        destruct (cell_eq_dec d c0) as [->|Hd0]; [lia|].
        now rewrite Hb1.
    + intros c Hc.
      destruct (cell_eq_dec c c0) as [->|Hne]; [exact Hwin|].
      assert (Hav1 : available b1 c) by (unfold available in *; now rewrite Hb1).
      specialize (Hfound c Hav1).
      destruct (check_winner (assign_cell b c trial) trial) eqn:Hw; auto.
      destruct (Z.eq_dec (property_value trial) 0) as [Hz|Hnz].
      * (* the trial value is the empty value: no assignment changes the board *)
        rewrite <- Hwin. symmetry. revert Hw. apply check_winner_mono.
        intros d. destruct (cell_eq_dec c0 d) as [<-|Hd].
        { now rewrite assign_cell_same. }
        rewrite (assign_cell_other b c0) by assumption.
        destruct (cell_eq_dec c d) as [<-|Hd'].
        { unfold available in Hc. congruence. }
        now rewrite assign_cell_other.
      * rewrite <- Hfound. symmetry. revert Hw. apply check_winner_mono.
        intros d. destruct (cell_eq_dec c d) as [<-|Hd].
        { now rewrite !assign_cell_same. }
        rewrite !assign_cell_other by assumption.
        destruct (cell_eq_dec d c0) as [->|Hd0].
        { unfold available in Hpicked. congruence. }
        now rewrite Hb1.
Qed.

(** ** The three tiers *)

Lemma opponent_player_value (p : Player) :
  property_value (opponent_player p) = if property_value p =? 1 then -1 else 1.
Proof. unfold opponent_player. now destruct (property_value p =? 1). Qed.

Lemma opponent_player_not_tracker (p : Player) : property_value (opponent_player p) <> 101.
Proof. rewrite opponent_player_value. destruct (property_value p =? 1); lia. Qed.

(** Both searches: run the loop for [trial] on a copy of the board, commit
    the acting player's value at the cell found. *)
Lemma search_then_commit_spec (b : Board) (p trial : Player) (g : RandomSource) :
  exists r g',
    (cells_picked <- pick_cell_randomly b ;;
     found <- search_loop search_fuel b trial cells_picked ;;
     match found with
     | Some c => ret (true, assign_cell b c p)
     | None => ret (false, b)
     end) g = Some (r, g') /\
    ((exists c, r = (true, assign_cell b c p) /\ available b c /\
                (property_value trial <> 101 ->
                 check_winner (assign_cell b c trial) trial = true))
     \/ (r = (false, b) /\ ~ has_winning_placement b trial)).
Proof.
  destruct (pick_cell_randomly_spec b g) as (picked & g1 & Hpick & Hfrom).
  destruct (search_loop_spec search_fuel b trial picked g1
              (find_available_cells_length b) Hfrom)
    as (found & g' & Hrun & Hfound).
  unfold bind. rewrite Hpick, Hrun.
  destruct found as [c|]; unfold ret.
  - exists (true, assign_cell b c p), g'. split; auto.
    left. exists c. tauto.
  - exists (false, b), g'. split; auto.
    right. split; auto. intros (c & Hc & Hw). rewrite (Hfound c Hc) in Hw. discriminate.
Qed.

Lemma offensive_move_spec (b : Board) (p : Player) (g : RandomSource) :
  exists r g',
    offensive_move b p g = Some (r, g') /\
    ((exists c, r = (true, assign_cell b c p) /\ available b c /\
                (property_value p <> 101 ->
                 check_winner (assign_cell b c p) p = true))
     \/ (r = (false, b) /\ ~ has_winning_placement b p)).
Proof. exact (search_then_commit_spec b p p g). Qed.

Lemma defensive_move_spec (b : Board) (p : Player) (g : RandomSource) :
  exists r g',
    defensive_move b p g = Some (r, g') /\
    ((exists c, r = (true, assign_cell b c p) /\ available b c /\
                check_winner (assign_cell b c (opponent_player p)) (opponent_player p) = true)
     \/ (r = (false, b) /\ ~ has_winning_placement b (opponent_player p))).
Proof.
  destruct (search_then_commit_spec b p (opponent_player p) g) as (r & g' & Hrun & H).
  exists r, g'. split; [exact Hrun|].
  destruct H as [(c & Hr & Hc & Hw)|H]; [left|right; exact H].
  exists c. auto using opponent_player_not_tracker.
Qed.

Lemma random_move_spec (b : Board) (p : Player) (g : RandomSource) :
  exists r g',
    random_move b p g = Some (r, g') /\
    ((exists c, r = (true, assign_cell b c p) /\ available b c)
     \/ (r = (false, b) /\ forall c, ~ available b c)).
Proof.
  destruct (pick_cell_randomly_spec b g) as (picked & g1 & Hpick & Hfrom).
  unfold random_move, bind. rewrite Hpick.
  destruct picked as [c|]; unfold ret.
  - exists (true, assign_cell b c p), g1. split; auto. left. exists c. auto.
  - exists (false, b), g1. split; auto.
Qed.

Lemma fill_cell_spec (b : Board) (p : Player) (g : RandomSource) :
  exists st b' g',
    fill_cell b p g = Some ((st, b'), g') /\ fill_cell_post b p st b'.
Proof.
  unfold fill_cell.
  destruct (offensive_move_spec b p g) as (r & g1 & Hoff & H1).
  unfold bind at 1. rewrite Hoff.
  destruct H1 as [(c & -> & Hc & Hw)|[-> Hnowin]]; cbn [negb].
  { exists OFFENSE, (assign_cell b c p), g1. split; auto. exists c; auto. }
  destruct (defensive_move_spec b p g1) as (r & g2 & Hdef & H2).
  unfold bind at 1. rewrite Hdef.
  destruct H2 as [(c & -> & Hc & Hw)|[-> Hnoblock]]; cbn [negb].
  { exists DEFENSE, (assign_cell b c p), g2. split; auto.
    split; auto. exists c; auto. }
  destruct (random_move_spec b p g2) as (r & g3 & Hrnd & H3).
  unfold bind at 1. rewrite Hrnd.
  destruct H3 as [(c & -> & Hc)|[-> Hfull]]; cbn [negb].
  - exists RANDOM, (assign_cell b c p), g3. split; auto.
    repeat split; auto. exists c; auto.
  - exists FULL, b, g3. split; auto. split; auto.
Qed.

(** ** The claims about [check_winner] and [fill_cell] *)

(** C1: when some available cell wins for the acting player, [fill_cell]
    reports [OFFENSE], the real board gets the player's value at an available
    cell and nothing else changes, and the player has won on the real board
    afterwards.  The player's value is any integer other than the value 101
    that the search writes on the cells it has tried. *)
Theorem fill_cell_takes_winning_move (b : Board) (p : Player) (g : RandomSource) :
  property_value p <> property_value attempts_tracker ->
  has_winning_placement b p ->
  exists c g',
    fill_cell b p g = Some ((OFFENSE, assign_cell b c p), g') /\
    available b c /\
    check_winner (assign_cell b c p) p = true.
Proof.
  intros Hp Hwin.
  destruct (fill_cell_spec b p g) as (st & b' & g' & Hrun & Hpost).
  destruct st; simpl in Hpost.
  - destruct Hpost as (c & -> & Hc & Hw). exists c, g'. auto.
  - destruct Hpost as [Hno _]. contradiction.
  - destruct Hpost as [Hno _]. contradiction.
  - destruct Hpost as [_ Hfull]. destruct Hwin as (c & Hc & _).
    now apply Hfull in Hc.
Qed.

Lemma fill_cell_takes_winning_move_witness :
  exists c g',
    fill_cell board_two_in_row0 P1 zero_tape
    = Some ((OFFENSE, assign_cell board_two_in_row0 c P1), g') /\
    available board_two_in_row0 c /\
    check_winner (assign_cell board_two_in_row0 c P1) P1 = true.
Proof.
  apply (fill_cell_takes_winning_move board_two_in_row0 P1 zero_tape).
  - simpl. discriminate.
  - exists (I0, I2). split; reflexivity.
Defined.

(** C2: when no available cell wins for the acting player and some available
    cell wins for the opponent, [fill_cell] reports [DEFENSE] and writes the
    acting player's own value at an available cell where the opponent's
    value would have won.  The opponent is the one [defensive_move] takes,
    and the acting player's value is not the value 101 of tried cells. *)
Theorem fill_cell_blocks_opponent (b : Board) (p : Player) (g : RandomSource) :
  property_value p <> property_value attempts_tracker ->
  ~ has_winning_placement b p ->
  has_winning_placement b (opponent_player p) ->
  exists c g',
    fill_cell b p g = Some ((DEFENSE, assign_cell b c p), g') /\
    available b c /\
    check_winner (assign_cell b c (opponent_player p)) (opponent_player p) = true.
Proof.
  intros Hp Hno Hopp.
  destruct (fill_cell_spec b p g) as (st & b' & g' & Hrun & Hpost).
  destruct st; simpl in Hpost.
  - destruct Hpost as (c & -> & Hc & Hw). exfalso. apply Hno.
    exists c. auto.
  - destruct Hpost as (_ & c & -> & Hc & Hw). exists c, g'. auto.
  - destruct Hpost as (_ & Hnone & _). contradiction.
  - destruct Hpost as [_ Hfull]. destruct Hopp as (c & Hc & _).
    now apply Hfull in Hc.
Qed.

Lemma fill_cell_blocks_opponent_witness :
  exists c g',
    fill_cell board_threat_row1 P1 zero_tape
    = Some ((DEFENSE, assign_cell board_threat_row1 c P1), g') /\
    available board_threat_row1 c /\
    check_winner (assign_cell board_threat_row1 c (opponent_player P1)) (opponent_player P1) = true.
Proof.
  apply (fill_cell_blocks_opponent board_threat_row1 P1 zero_tape).
  - simpl. discriminate.
  - intros (c & Hc & Hw). destruct c as [[] []]; vm_compute in Hc, Hw; discriminate.
  - exists (I1, I2). split; reflexivity.
Defined.

(** C7: [fill_cell] returns, and it reports [FULL] exactly when the board
    has no empty cell; with an empty cell left it reports [OFFENSE],
    [DEFENSE] or [RANDOM]; when it reports [FULL] the board is unchanged. *)
Theorem fill_cell_full_iff_no_empty_cell (b : Board) (p : Player) (g : RandomSource) :
  exists st b' g',
    fill_cell b p g = Some ((st, b'), g') /\
    (st = FULL <-> forall c, get b c <> 0) /\
    ((exists c, get b c = 0) -> st = OFFENSE \/ st = DEFENSE \/ st = RANDOM) /\
    (st = FULL -> b' = b).
Proof.
  destruct (fill_cell_spec b p g) as (st & b' & g' & Hrun & Hpost).
  exists st, b', g'. split; [exact Hrun|].
  assert (Hmoved : st <> FULL -> exists c, get b c = 0).
  { destruct st; simpl in Hpost; try congruence; intros _.
    - destruct Hpost as (c & _ & Hc & _). now exists c.
    - destruct Hpost as (_ & c & _ & Hc & _). now exists c.
    - destruct Hpost as (_ & _ & c & _ & Hc). now exists c. }
  assert (Hfull : st = FULL -> b' = b /\ forall c, get b c <> 0).
  { intros ->. exact Hpost. }
  repeat split.
  - intros E. now apply Hfull.
  - intros Hnone. destruct st; auto;
      destruct Hmoved as (c & Hc); try discriminate; now apply Hnone in Hc.
  - intros (c & Hc). destruct st; auto.
    exfalso. destruct (Hfull eq_refl) as [_ Hnone]. now apply (Hnone c).
  - intros E. now apply Hfull.
Qed.

(** C8: [fill_cell] returns a board that differs from the one it was given
    in at most one cell, and that cell was empty before the call. *)
Theorem fill_cell_changes_one_empty_cell (b : Board) (p : Player) (g : RandomSource) :
  exists st b' g',
    fill_cell b p g = Some ((st, b'), g') /\
    forall d, get b' d <> get b d ->
              get b d = 0 /\ forall e, get b' e <> get b e -> e = d.
Proof.
  destruct (fill_cell_spec b p g) as (st & b' & g' & Hrun & Hpost).
  exists st, b', g'. split; [exact Hrun|].
  assert (H : b' = b \/ exists c, b' = assign_cell b c p /\ available b c).
  { destruct st; simpl in Hpost.
    - destruct Hpost as (c & E & Hc & _). right. now exists c.
    - destruct Hpost as (_ & c & E & Hc & _). right. now exists c.
    - destruct Hpost as (_ & _ & c & E & Hc). right. now exists c.
    - left. tauto. }
  destruct H as [->|(c & -> & Hc)]; intros d Hd; [congruence|].
  assert (Hat : forall e, get (assign_cell b c p) e <> get b e -> e = c).
  { intros e He. destruct (cell_eq_dec c e) as [E|E]; auto.
    now rewrite assign_cell_other in He. }
  rewrite (Hat d Hd). split; [exact Hc|exact Hat].
Qed.

(** The hypothesis on the player's value is needed.  A player whose value
    is the value of tried cells has the search take its own markers for the
    player's marks: on [board_marker_rows] the cell (2,2) wins, the search
    tries (1,1) first, then sees a full row 1 at (1,2) and commits it, and
    the player has not won. *)
Lemma tracker_valued_player_false_win :
  has_winning_placement board_marker_rows attempts_tracker /\
  exists g',
    fill_cell board_marker_rows attempts_tracker zero_tape
    = Some ((OFFENSE, assign_cell board_marker_rows (I1, I2) attempts_tracker), g') /\
    check_winner (assign_cell board_marker_rows (I1, I2) attempts_tracker)
                 attempts_tracker = false.
Proof.
  split.
  - exists (I2, I2). split; reflexivity.
  - eexists. split; reflexivity.
Qed.

(** C3, as the spec has it, fails: on a fresh board every line is filled with
    the empty value, and [check_winner] reports a win for it. *)
Lemma check_winner_empty_on_fresh_board :
  check_winner create_board empty_player = true.
Proof. reflexivity. Qed.

(** C3, amended: for the empty value [check_winner] compares like for any
    other value.  It is true exactly when one of the eight lines is entirely
    empty, and so false exactly when every line has a filled cell. *)
Theorem check_winner_empty_iff (b : Board) (n : string) :
  let empty := {| name := n; property_value := 0 |} in
  (check_winner b empty = true <->
   exists l, In l winning_lines /\ forall c, In c l -> get b c = 0) /\
  (check_winner b empty = false <->
   forall l, In l winning_lines -> exists c, In c l /\ get b c <> 0).
Proof.
  intros empty.
  assert (Htrue : check_winner b empty = true <->
                  exists l, In l winning_lines /\ forall c, In c l -> get b c = 0).
  { apply (check_winner_iff b empty). }
  split; [exact Htrue|].
  rewrite <- not_true_iff_false, Htrue. split.
  - intros Hno l Hl.
    destruct (existsb (fun c => negb (get b c =? 0)) l) eqn:E.
    + apply existsb_exists in E. destruct E as (c & Hc & Hne).
      exists c. split; auto. apply negb_true_iff, Z.eqb_neq in Hne. exact Hne.
    + exfalso. apply Hno. exists l. split; auto. intros c Hc.
      destruct (Z.eq_dec (get b c) 0) as [E0|E0]; auto.
      assert (existsb (fun c => negb (get b c =? 0)) l = true); [|congruence].
      apply existsb_exists. exists c. split; auto.
      now apply negb_true_iff, Z.eqb_neq.
  - intros Hall (l & Hl & Hline).
    destruct (Hall l Hl) as (c & Hc & Hne). now apply Hne, Hline.
Qed.

(** C10: [defensive_move] tests the value -1 when the acting player's value
    is 1 and the value 1 otherwise, whoever the players are.  It blocks
    exactly when that value has a winning cell; an opponent with any other
    value is not blocked: on a board that this opponent fills but for one
    cell of row 0, the opponent wins at the empty cell and [defensive_move]
    leaves the board as it is. *)
Theorem defensive_move_opponent_by_value (p : Player) :
  opponent_player p = (if property_value p =? 1 then P2 else P1) /\
  (forall b g, exists r b' g',
      defensive_move b p g = Some ((r, b'), g') /\
      (r = true <-> has_winning_placement b (if property_value p =? 1 then P2 else P1))) /\
  (forall q g,
      property_value q <> (if property_value p =? 1 then -1 else 1) ->
      let v := property_value q in
      let b := board_of_rows (v, v, 0) (v, v, v) (v, v, v) in
      has_winning_placement b q /\
      exists g', defensive_move b p g = Some ((false, b), g')).
Proof.
  split; [reflexivity|]. split.
  - intros b g.
    destruct (defensive_move_spec b p g) as (r & g' & Hrun & H).
    change (if property_value p =? 1 then P2 else P1) with (opponent_player p).
    destruct H as [(c & -> & Hc & Hw)|[-> Hno]].
    + exists true, (assign_cell b c p), g'. split; auto.
      split; auto. intros _. now exists c.
    + exists false, b, g'. split; auto. split; [discriminate|contradiction].
  - intros q g Hq v b.
    assert (Hwin : has_winning_placement b q).
    { exists (I0, I2). split; [reflexivity|].
      apply check_winner_iff. exists [(I0, I0); (I0, I1); (I0, I2)].
      split; [simpl; tauto|].
      intros c [<-|[<-|[<-|[]]]]; reflexivity. }
    split; [exact Hwin|].
    destruct (defensive_move_spec b p g) as (r & g' & Hrun & H).
    destruct H as [(c & -> & Hc & Hw)|[-> Hno]]; [exfalso|now exists g'].
    apply check_winner_iff in Hw. destruct Hw as (l & Hl & Hline).
    destruct (line_has_other l c Hl) as (d & Hd & Hdc).
    specialize (Hline d Hd). rewrite assign_cell_other in Hline by congruence.
    assert (Hbd : get b d = v \/ get b d = 0) by (destruct d as [[] []]; auto).
    rewrite opponent_player_value in Hline.
    destruct Hbd as [E|E]; rewrite E in Hline.
    + subst v. congruence.
    + destruct (property_value p =? 1); discriminate.
Qed.

Lemma defensive_move_opponent_by_value_witness :
  let p := {| name := "Third"%string; property_value := 2 |} in
  let q := {| name := "Fourth"%string; property_value := 3 |} in
  let b := board_of_rows (3, 3, 0) (3, 3, 3) (3, 3, 3) in
  has_winning_placement b q /\
  exists g', defensive_move b p zero_tape = Some ((false, b), g').
Proof.
  intros p q b.
  apply (proj2 (proj2 (defensive_move_opponent_by_value p)) q zero_tape).
  simpl. discriminate.
Defined.

(** ** The meta game *)

Lemma advance_advance (a b : nat) (g : RandomSource) :
  advance a (advance b g) = advance (a + b) g.
Proof. unfold advance. simpl. f_equal. lia. Qed.

Lemma attempt_advance (g : RandomSource) (k : nat) :
  attempt (advance 2 g) k = attempt g (S k).
Proof.
  unfold attempt, advance. cbn [draws cursor].
  replace (2 * k + (2 + cursor g))%nat with (2 * S k + cursor g)%nat by lia.
  reflexivity.
Qed.

(** One call of [choose_board], case by case. *)
Lemma choose_board_step (fuel : nat) (mb : MetaBoard) (res : Board) (g : RandomSource) :
  choose_board (S fuel) mb res g =
  let pos := attempt g 0 in
  if is_board_complete res then
    Some ((set mb pos create_board, set res pos 0, pos), advance 2 g)
  else if get res pos =? 0 then Some ((mb, res, pos), advance 2 g)
  else choose_board fuel mb res (advance 2 g).
Proof.
  cbn [choose_board]. unfold bind, choice. cbv zeta.
  destruct (is_board_complete res) eqn:E; cbn [reset_board].
  - change (nth _ [I0; I1; I2] I0, nth _ [I0; I1; I2] I0) with (attempt g 0).
    rewrite get_set_same. reflexivity.
  - change (nth _ [I0; I1; I2] I0, nth _ [I0; I1; I2] I0) with (attempt g 0).
    destruct (get res (attempt g 0) =? 0); reflexivity.
Qed.

Lemma is_board_complete_iff (b : Board) :
  is_board_complete b = true <-> forall c, get b c <> 0.
Proof.
  unfold is_board_complete. rewrite forallb_forall. split.
  - intros H c. apply Z.eqb_neq, negb_true_iff, H, in_cells.
  - intros H c _. apply negb_true_iff, Z.eqb_neq, H.
Qed.

Lemma is_board_complete_false_iff (b : Board) :
  is_board_complete b = false <-> exists c, get b c = 0.
Proof.
  rewrite <- not_true_iff_false, is_board_complete_iff. split.
  - intros H. destruct (find_available_cells b) as [|c l] eqn:E.
    + exfalso. apply H. intros c Hc.
      apply (proj1 (find_available_cells_nil b) E c Hc).
    + exists c. apply find_available_cells_In. rewrite E. now left.
  - intros (c & Hc) H. now apply (H c).
Qed.

(** Whatever [choose_board] returns: the position is undecided, and nothing
    was reset unless the whole grid was decided. *)
Lemma choose_board_result (fuel : nat) :
  forall mb res g mb' res' pos' g',
    choose_board fuel mb res g = Some ((mb', res', pos'), g') ->
    get res' pos' = 0 /\
    (is_board_complete res = false -> mb' = mb /\ res' = res).
Proof.
  induction fuel as [|fuel IH]; intros mb res g mb' res' pos' g' H.
  - discriminate.
  - rewrite choose_board_step in H. cbv zeta in H.
    destruct (is_board_complete res) eqn:E.
    + inversion H; subst. split; [apply get_set_same|discriminate].
    + destruct (get res (attempt g 0) =? 0) eqn:E0.
      * inversion H; subst. apply Z.eqb_eq in E0. auto.
      * apply IH in H. rewrite E in H. exact H.
Qed.

(** C4: [choose_board] resets the drawn position exactly when no meta result
    is empty, and then returns it; when some meta result is empty it returns
    the drawn position if that one is empty and otherwise draws again
    without resetting anything; the position it returns has an empty meta
    result, and the boards and results come back as they were unless the
    whole grid was decided. *)
Theorem choose_board_reset_or_retry (fuel : nat) (mb : MetaBoard) (res : Board)
    (g : RandomSource) :
  let pos := attempt g 0 in
  ((forall c, get res c <> 0) ->
   choose_board (S fuel) mb res g
   = Some ((set mb pos create_board, set res pos 0, pos), advance 2 g)) /\
  ((exists c, get res c = 0) -> get res pos = 0 ->
   choose_board (S fuel) mb res g = Some ((mb, res, pos), advance 2 g)) /\
  ((exists c, get res c = 0) -> get res pos <> 0 ->
   choose_board (S fuel) mb res g = choose_board fuel mb res (advance 2 g)) /\
  (forall mb' res' pos' g',
      choose_board fuel mb res g = Some ((mb', res', pos'), g') ->
      get res' pos' = 0 /\
      ((exists c, get res c = 0) -> mb' = mb /\ res' = res)).
Proof.
  intros pos. repeat split.
  - intros H. apply is_board_complete_iff in H.
    rewrite choose_board_step. cbv zeta. now rewrite H.
  - intros H H0. apply is_board_complete_false_iff in H.
    rewrite choose_board_step. cbv zeta. rewrite H.
    apply Z.eqb_eq in H0. fold pos. now rewrite H0.
  - intros H H0. apply is_board_complete_false_iff in H.
    rewrite choose_board_step. cbv zeta. rewrite H.
    apply Z.eqb_neq in H0. fold pos. now rewrite H0.
  - eapply choose_board_result; eauto.
  - apply is_board_complete_false_iff in H0.
    eapply choose_board_result in H; eauto. now apply H.
  - apply is_board_complete_false_iff in H0.
    eapply choose_board_result in H; eauto. now apply H.
Qed.

Lemma choose_board_reset_or_retry_witness :
  choose_board 1 initial_meta_board board_tied zero_tape
  = Some ((set initial_meta_board (I0, I0) create_board,
           set board_tied (I0, I0) 0, (I0, I0)), advance 2 zero_tape) /\
  choose_board 2 initial_meta_board results_corner_decided zero_tape
  = choose_board 1 initial_meta_board results_corner_decided (advance 2 zero_tape).
Proof.
  split.
  - apply (choose_board_reset_or_retry 0 initial_meta_board board_tied zero_tape).
    intros [[] []]; vm_compute; discriminate.
  - apply (choose_board_reset_or_retry 1 initial_meta_board results_corner_decided
             zero_tape).
    + exists (I0, I1). reflexivity.
    + vm_compute. discriminate.
Defined.

(** C5: what the driver does with the status of a move.  [OFFENSE] writes
    the player's value at the position in the meta results; [FULL] puts a
    board of nine empty cells at the position and empties the meta result
    there; [DEFENSE] and [RANDOM] change nothing.  No other position is
    touched. *)
Theorem resolve_by_status (mb : MetaBoard) (res : Board) (pos : cell) (player : Player) :
  (let '(mb', res') := resolve mb res pos OFFENSE player in
   mb' = mb /\ get res' pos = property_value player /\
   forall d, d <> pos -> get res' d = get res d) /\
  (let '(mb', res') := resolve mb res pos FULL player in
   get mb' pos = create_board /\
   (forall c, get (get mb' pos) c = 0) /\
   find_available_cells (get mb' pos) = cells /\
   get res' pos = 0 /\
   forall d, d <> pos -> get mb' d = get mb d /\ get res' d = get res d) /\
  resolve mb res pos DEFENSE player = (mb, res) /\
  resolve mb res pos RANDOM player = (mb, res).
Proof.
  unfold resolve, reset_board, update_meta_results. cbv beta iota.
  rewrite !get_set_same.
  assert (Hother : forall (A : Type) (m : grid A) (a : A) d,
             d <> pos -> get (set m pos a) d = get m d).
  { intros A m a d Hd. apply get_set_other. congruence. }
  split; [|split; [|split; reflexivity]].
  - split; [reflexivity|]. split; [reflexivity|]. intros d Hd. now apply Hother.
  - split; [reflexivity|]. split; [intros c; apply get_full|].
    split; [reflexivity|]. split; [reflexivity|].
    intros d Hd. split; now apply Hother.
Qed.

(** C9, as the spec has it, fails: with one decided position and a source
    that draws that position every time, [choose_board] never returns,
    whatever the depth allowed. *)
Lemma choose_board_retries_forever :
  is_board_complete results_corner_decided = false /\
  forall fuel,
    choose_board fuel initial_meta_board results_corner_decided zero_tape = None.
Proof.
  split; [reflexivity|].
  assert (H : forall fuel k,
             choose_board fuel initial_meta_board results_corner_decided
               (advance k zero_tape) = None).
  { induction fuel as [|fuel IH]; intros k; [reflexivity|].
    rewrite choose_board_step. cbv zeta.
    change (is_board_complete results_corner_decided) with false.
    change (attempt (advance k zero_tape) 0) with (I0, I0).
    change (get results_corner_decided (I0, I0) =? 0) with false.
    cbv iota. rewrite advance_advance. apply IH. }
  intros fuel. apply (H fuel 0%nat).
Qed.

Lemma choose_board_first_hit (mb : MetaBoard) (res : Board) :
  forall (k fuel : nat) (g : RandomSource),
    is_board_complete res = false ->
    first_undecided res g k ->
    (k < fuel)%nat ->
    choose_board fuel mb res g = Some ((mb, res, attempt g k), advance (2 * S k) g).
Proof.
  intros k fuel g Hinc. revert fuel g.
  induction k as [|k IH]; intros fuel g [Hbefore Hat] Hfuel;
    (destruct fuel as [|fuel]; [lia|]); rewrite choose_board_step; cbv zeta;
    rewrite Hinc.
  - apply Z.eqb_eq in Hat. now rewrite Hat.
  - assert (H0 : get res (attempt g 0) <> 0) by (apply Hbefore; lia).
    apply Z.eqb_neq in H0. rewrite H0.
    rewrite (IH fuel (advance 2 g)).
    + rewrite attempt_advance, advance_advance. do 2 f_equal. f_equal. lia.
    + split.
      * intros j Hj. rewrite attempt_advance. apply Hbefore. lia.
      * now rewrite attempt_advance.
    + lia.
Qed.

Lemma choose_board_returned_hit (mb : MetaBoard) (res : Board) :
  forall (fuel : nat) (g : RandomSource) r g',
    is_board_complete res = false ->
    choose_board fuel mb res g = Some (r, g') ->
    exists k, (k < fuel)%nat /\ first_undecided res g k /\
              r = (mb, res, attempt g k) /\ g' = advance (2 * S k) g.
Proof.
  induction fuel as [|fuel IH]; intros g r g' Hinc H; [discriminate|].
  rewrite choose_board_step in H. cbv zeta in H. rewrite Hinc in H.
  destruct (get res (attempt g 0) =? 0) eqn:E0.
  - inversion H; subst. exists 0%nat. apply Z.eqb_eq in E0.
    repeat split; auto; [lia|]. intros j Hj. lia.
  - apply IH in H; auto. destruct H as (k & Hk & [Hbefore Hat] & -> & ->).
    exists (S k). rewrite !attempt_advance in *. rewrite advance_advance.
    apply Z.eqb_neq in E0.
    repeat split; auto; [lia| |f_equal; lia].
    intros j Hj. destruct j as [|j]; [exact E0|].
    rewrite <- attempt_advance. apply Hbefore. lia.
Qed.

Lemma choose_board_too_shallow (mb : MetaBoard) (res : Board) :
  forall (fuel k : nat) (g : RandomSource),
    is_board_complete res = false ->
    first_undecided res g k ->
    (fuel <= k)%nat ->
    choose_board fuel mb res g = None.
Proof.
  intros fuel k g Hinc [Hbefore _] Hfuel.
  destruct (choose_board fuel mb res g) as [[r g']|] eqn:E; [|reflexivity].
  apply choose_board_returned_hit in E; auto.
  destruct E as (k' & Hk' & [_ Hat] & _).
  exfalso. apply (Hbefore k'); [lia|exact Hat].
Qed.

(** C9, amended: on a grid with an empty meta result the retries end exactly
    when the source draws an undecided position.  If the first such draw is
    the [k]-th and the depth allows [k] retries, [choose_board] returns that
    position after [k] retries with boards and results untouched; whenever
    it returns, it returns such a first draw; and when the depth does not
    allow [k] retries it does not return.  Nothing bounds [k]. *)
Theorem choose_board_returns_first_undecided_draw (mb : MetaBoard) (res : Board)
    (fuel : nat) (g : RandomSource) :
  (exists c, get res c = 0) ->
  (forall k, (k < fuel)%nat -> first_undecided res g k ->
             choose_board fuel mb res g
             = Some ((mb, res, attempt g k), advance (2 * S k) g)) /\
  (forall r g', choose_board fuel mb res g = Some (r, g') ->
                exists k, (k < fuel)%nat /\ first_undecided res g k /\
                          r = (mb, res, attempt g k) /\ g' = advance (2 * S k) g) /\
  (forall k, (fuel <= k)%nat -> first_undecided res g k ->
             choose_board fuel mb res g = None).
Proof.
  intros Hinc. apply is_board_complete_false_iff in Hinc. split; [|split].
  - intros k Hk Hfirst. now apply choose_board_first_hit.
  - intros r g'. now apply choose_board_returned_hit.
  - intros k Hk Hfirst. now apply (choose_board_too_shallow mb res fuel k).
Qed.

Lemma choose_board_returns_first_undecided_draw_witness :
  choose_board 5 initial_meta_board results_corner_decided tape_second_hit
  = Some ((initial_meta_board, results_corner_decided, attempt tape_second_hit 1),
          advance (2 * 2) tape_second_hit).
Proof.
  apply (choose_board_returns_first_undecided_draw initial_meta_board
           results_corner_decided 5 tape_second_hit).
  - exists (I0, I1). reflexivity.
  - lia.
  - split.
    + intros j Hj. assert (j = 0%nat) as -> by lia. vm_compute. discriminate.
    + reflexivity.
Defined.

(** ** The driver *)

Lemma bots_loop_after_turns (n turns depth : nat) :
  forall s g s' g',
    bots_turns n depth s g = Some (s', g') ->
    bots_loop (n + turns) depth s g = bots_loop turns depth s' g'.
Proof.
  induction n as [|n IH]; intros s g s' g' H.
  - inversion H. reflexivity.
  - cbn [bots_turns] in H. cbn [Nat.add bots_loop].
    destruct (nobody_won (meta_board_results s)); [|discriminate].
    unfold bind in *. destruct (loop_body depth s g) as [[s1 g1]|]; [|discriminate].
    now apply IH.
Qed.

(** Every run of the loop that ends after at least one turn ends right after
    a turn. *)
Lemma bots_loop_last_turn (turns depth : nat) :
  forall s g s' g',
    nobody_won (meta_board_results s) = true ->
    bots_loop turns depth s g = Some (s', g') ->
    exists s_prev g_prev,
      nobody_won (meta_board_results s_prev) = true /\
      loop_body depth s_prev g_prev = Some (s', g') /\
      nobody_won (meta_board_results s') = false.
Proof.
  induction turns as [|turns IH]; intros s g s' g' Hopen H;
    cbn [bots_loop] in H; rewrite Hopen in H; [discriminate|].
  unfold bind in H. destruct (loop_body depth s g) as [[s1 g1]|] eqn:Hbody; [|discriminate].
  destruct (nobody_won (meta_board_results s1)) eqn:Hopen1.
  - now apply (IH s1 g1).
  - destruct turns; cbn [bots_loop] in H; rewrite Hopen1 in H;
      inversion H; subst; exists s, g; auto.
Qed.

Lemma take_turn_inv (depth : nat) (mb : MetaBoard) (res : Board)
    (previous : option Player) (g : RandomSource) (s' : GameState) (g' : RandomSource) :
  take_turn depth mb res previous g = Some (s', g') ->
  exists player g1 mb1 res1 pos g2 st b',
    choose_player previous g = Some (player, g1) /\
    choose_board depth mb res g1 = Some ((mb1, res1, pos), g2) /\
    fill_cell (get mb1 pos) player g2 = Some ((st, b'), g') /\
    s' = {| meta_board := set mb1 pos b';
            meta_board_results := res1;
            current_player := player;
            current_board_pos := pos;
            status := st |}.
Proof.
  unfold take_turn, bind. intros H.
  destruct (choose_player previous g) as [[player g1]|] eqn:E1; [|discriminate].
  destruct (choose_board depth mb res g1) as [[[[mb1 res1] pos] g2]|] eqn:E2; [|discriminate].
  destruct (fill_cell (get mb1 pos) player g2) as [[[st b'] g3]|] eqn:E3; [|discriminate].
  unfold ret in H. inversion H; subst.
  exists player, g1, mb1, res1, pos, g2, st, b'.
  split; [reflexivity|]. split; [exact E2|]. split; [exact E3|reflexivity].
Qed.

(** [choose_board] hands the meta results back as they were, or with the
    returned position emptied. *)
Lemma choose_board_results (fuel : nat) :
  forall mb res g mb' res' pos' g',
    choose_board fuel mb res g = Some ((mb', res', pos'), g') ->
    res' = res \/ res' = set res pos' 0.
Proof.
  induction fuel as [|fuel IH]; intros mb res g mb' res' pos' g' H; [discriminate|].
  rewrite choose_board_step in H. cbv zeta in H.
  destruct (is_board_complete res).
  - inversion H; subst. now right.
  - destruct (get res (attempt g 0) =? 0).
    + inversion H; subst. now left.
    + now apply IH in H.
Qed.

Lemma check_winner_value (b : Board) (p q : Player) :
  property_value p = property_value q -> check_winner b p = check_winner b q.
Proof. intros H. rewrite !check_winner_existsb, H. reflexivity. Qed.

(** A line that one assignment completes is a line of the assigned value. *)
Lemma check_winner_new_line (res : Board) (pos : cell) (v : Z) (w : Player) :
  check_winner res w = false ->
  check_winner (set res pos v) w = true ->
  v = property_value w.
Proof.
  intros Hbefore Hafter.
  destruct (Z.eq_dec v (property_value w)) as [E|E]; auto.
  exfalso. rewrite <- not_true_iff_false in Hbefore. apply Hbefore.
  revert Hafter. apply check_winner_mono. intros d.
  destruct (cell_eq_dec pos d) as [<-|Hd].
  - rewrite get_set_same. congruence.
  - now rewrite get_set_other.
Qed.

(** Emptying a cell gives nobody a line. *)
Lemma check_winner_before_emptying (res : Board) (pos : cell) (w : Player) :
  property_value w <> 0 ->
  check_winner (set res pos 0) w = true -> check_winner res w = true.
Proof.
  intros Hw. apply check_winner_mono. intros d.
  destruct (cell_eq_dec pos d) as [<-|Hd].
  - rewrite get_set_same. congruence.
  - now rewrite get_set_other.
Qed.

(** In every game that [play_meta_game_bots] finishes, the last turn of the
    loop starts with nobody having won, gives the player of the last
    [OFFENSE] move three in a line when it resolves that move, and then goes
    on to choose a player and a board and to fill a cell; the status of that
    last move is never resolved. *)
Lemma finished_game_moves_after_win (turns depth : nat) (g : RandomSource)
    (s' : GameState) (g' : RandomSource) :
  play_meta_game_bots_run turns depth g = Some (s', g') ->
  exists s g0,
    nobody_won (meta_board_results s) = true /\
    status s = OFFENSE /\
    check_winner
      (update_meta_results (meta_board_results s) (current_board_pos s) (current_player s))
      (current_player s) = true /\
    take_turn depth (meta_board s)
      (update_meta_results (meta_board_results s) (current_board_pos s) (current_player s))
      (Some (current_player s)) g0 = Some (s', g').
Proof.
  unfold play_meta_game_bots_run, bind. intros H.
  destruct (take_turn depth initial_meta_board initial_meta_board_results None g)
    as [[s0 g0]|] eqn:Hfirst; [|discriminate].
  assert (Hopen0 : nobody_won (meta_board_results s0) = true).
  { apply take_turn_inv in Hfirst.
    destruct Hfirst as (player & g1 & mb1 & res1 & pos & g2 & st & b' & _ & Hcb & _ & ->).
    apply choose_board_result in Hcb. destruct Hcb as [_ Hcb].
    destruct (Hcb eq_refl) as [_ ->]. reflexivity. }
  destruct (bots_loop_last_turn turns depth s0 g0 s' g' Hopen0 H)
    as (s & gs & Hopen & Hbody & Hclosed).
  exists s, gs. split; [exact Hopen|].
  unfold loop_body in Hbody.
  destruct (resolve (meta_board s) (meta_board_results s) (current_board_pos s)
              (status s) (current_player s)) as [mb1 res1] eqn:Hres.
  pose proof Hbody as Hturn.
  apply take_turn_inv in Hturn.
  destruct Hturn as (player & g1 & mb2 & res2 & pos & g2 & st & b' & Hpl & Hcb & _ & Hs').
  subst s'. cbn [meta_board_results] in Hclosed.
  apply choose_board_results in Hcb.
  (* somebody has three in a line on [res2], hence already on [res1] *)
  assert (Hwon1 : nobody_won res1 = false).
  { destruct Hcb as [->| ->]; [exact Hclosed|].
    unfold nobody_won in *. apply andb_false_iff in Hclosed. apply andb_false_iff.
    destruct Hclosed as [Hc|Hc]; [left|right];
      apply negb_false_iff in Hc; apply negb_false_iff;
      (eapply check_winner_before_emptying; [|exact Hc]); simpl; discriminate. }
  (* the status that was resolved *)
  assert (Hnot_reset : forall w, property_value w <> 0 ->
            check_winner (set (meta_board_results s) (current_board_pos s) 0) w = true ->
            check_winner (meta_board_results s) w = true).
  { intros w. apply check_winner_before_emptying. }
  destruct (status s) eqn:Hst; cbn [resolve reset_board] in Hres; inversion Hres; subst mb1 res1.
  - (* OFFENSE *)
    split; [reflexivity|]. split; [|exact Hbody].
    unfold nobody_won in *.
    apply andb_true_iff in Hopen. destruct Hopen as [H1 H2].
    apply negb_true_iff in H1, H2.
    apply andb_false_iff in Hwon1.
    destruct Hwon1 as [Hc|Hc]; apply negb_false_iff in Hc;
      rewrite <- Hc; apply check_winner_value;
      eapply check_winner_new_line; eauto.
  - congruence.
  - congruence.
  - exfalso. unfold nobody_won in *.
    apply andb_true_iff in Hopen. destruct Hopen as [H1 H2].
    apply negb_true_iff in H1, H2.
    apply andb_false_iff in Hwon1.
    destruct Hwon1 as [Hc|Hc]; apply negb_false_iff in Hc;
      apply Hnot_reset in Hc; try (simpl; discriminate); congruence.
Qed.

(** C6, where the code departs from it: on [lcg_tape] the loop is entered a
    26th time with nobody having won and [P1]'s [OFFENSE] move on board
    (2,0) not yet resolved.  Resolving it gives [P1] the anti-diagonal of the
    meta results.  The same turn then makes [P2] the current player, chooses
    board (2,2) and fills its cell (1,0) with [P2]'s value; only then is the
    winner tested, and the status of that last move is never resolved.  The
    game ends there with [P1] as winner. *)
Theorem play_meta_game_bots_moves_after_win :
  exists s g s' g',
    bots_after 25 60 lcg_tape = Some (s, g) /\
    nobody_won (meta_board_results s) = true /\
    (status s, current_player s, current_board_pos s) = (OFFENSE, P1, (I2, I0)) /\
    check_winner (update_meta_results (meta_board_results s) (I2, I0) P1) P1 = true /\
    loop_body 60 s g = Some (s', g') /\
    (status s', current_player s', current_board_pos s') = (RANDOM, P2, (I2, I2)) /\
    get (get (meta_board s) (I2, I2)) (I1, I0) = 0 /\
    get (get (meta_board s') (I2, I2)) (I1, I0) = -1 /\
    play_meta_game_bots_run 300 60 lcg_tape = Some (s', g') /\
    play_meta_game_bots 300 60 lcg_tape = Some (P1, g').
Proof.
  let r := eval vm_compute in (bots_after 25 60 lcg_tape) in
  match r with
  | Some (?s, ?g) =>
      exists s, g;
      let r' := eval vm_compute in (loop_body 60 s g) in
      match r' with
      | Some (?s', ?g') => exists s', g'
      end
  end.
  split; [vm_compute; reflexivity|].
  split; [vm_compute; reflexivity|].
  split; [vm_compute; reflexivity|].
  split; [vm_compute; reflexivity|].
  split; [vm_compute; reflexivity|].
  split; [vm_compute; reflexivity|].
  split; [vm_compute; reflexivity|].
  split; [vm_compute; reflexivity|].
  split; vm_compute; reflexivity.
Qed.

(** * Further properties of the code *)

(** ** One board *)

(** X1: [check_winner] is true exactly when a row, a column, the main
    diagonal or the anti-diagonal holds the player's value in all three
    cells. *)
Theorem check_winner_rows_columns_diagonals (b : Board) (p : Player) :
  let v := property_value p in
  check_winner b p = true <->
  (exists i, forall j, get b (i, j) = v) \/
  (exists j, forall i, get b (i, j) = v) \/
  (forall i, get b (i, i) = v) \/
  (get b (I0, I2) = v /\ get b (I1, I1) = v /\ get b (I2, I0) = v).
Proof.
  intros v. rewrite check_winner_iff. fold v. split.
  - intros (l & Hl & Hline). unfold line_of in Hline. simpl in Hl.
    destruct Hl as [<-|[<-|[<-|[<-|[<-|[<-|[<-|[<-|[]]]]]]]]].
    + left. exists I0. intros []; apply Hline; simpl; auto.
    + left. exists I1. intros []; apply Hline; simpl; auto.
    + left. exists I2. intros []; apply Hline; simpl; auto.
    + right; left. exists I0. intros []; apply Hline; simpl; auto.
    + right; left. exists I1. intros []; apply Hline; simpl; auto.
    + right; left. exists I2. intros []; apply Hline; simpl; auto.
    + right; right; right. repeat split; apply Hline; simpl; auto.
    + right; right; left. intros []; apply Hline; simpl; auto.
  - intros [(i & H)|[(j & H)|[H|(H0 & H1 & H2)]]].
    + exists (map (fun j => (i, j)) indices). split.
      * destruct i; simpl; auto.
      * intros c Hc. simpl in Hc. destruct Hc as [<-|[<-|[<-|[]]]]; apply H.
    + exists (map (fun i => (i, j)) indices). split.
      * destruct j; simpl; auto 10.
      * intros c Hc. simpl in Hc. destruct Hc as [<-|[<-|[<-|[]]]]; apply H.
    + exists (map (fun i => (i, i)) indices). split.
      * simpl; auto 10.
      * intros c Hc. simpl in Hc. destruct Hc as [<-|[<-|[<-|[]]]]; apply H.
    + exists (combine indices (rev indices)). split.
      * simpl; auto 10.
      * intros c Hc. simpl in Hc. destruct Hc as [<-|[<-|[<-|[]]]]; assumption.
Qed.

Lemma pick_cell_randomly_cases (b : Board) (g : RandomSource) :
  exists r g',
    pick_cell_randomly b g = Some (r, g') /\
    (r = None <-> forall c, get b c <> 0) /\
    (forall c, r = Some c -> get b c = 0) /\
    g' = match r with Some _ => advance 1 g | None => g end.
Proof.
  unfold pick_cell_randomly.
  destruct (find_available_cells b) as [|c0 l] eqn:E.
  - exists None, g. simpl. repeat split; auto; try discriminate.
    intros _ c Hc. exact (proj1 (find_available_cells_nil b) E c Hc).
  - cbn [length Nat.ltb Nat.leb]. unfold bind, randint, ret.
    set (r := (0 + _)%nat).
    assert (Hr : (r < length (c0 :: l))%nat).
    { subst r. cbn [length Nat.add].
      replace (S (length l) - 1 - 0 + 1)%nat with (S (length l)) by lia.
      apply Nat.mod_upper_bound. lia. }
    destruct (nth_error (c0 :: l) r) as [d|] eqn:En.
    2:{ apply nth_error_None in En. lia. }
    exists (Some d), (advance 1 g).
    assert (Hd : get b d = 0).
    { apply find_available_cells_In. rewrite E. eapply nth_error_In; eauto. }
    repeat split; auto; try discriminate.
    + intros H. now apply H in Hd.
    + intros c Hc. inversion Hc; subst. exact Hd.
Qed.

(** X2: [pick_cell_randomly] returns [None] exactly when no cell is empty,
    and then draws nothing; otherwise it draws one number and returns an
    empty cell. *)
Theorem pick_cell_randomly_picks_empty_cell (b : Board) (g : RandomSource) :
  exists r g',
    pick_cell_randomly b g = Some (r, g') /\
    (r = None <-> forall c, get b c <> 0) /\
    (forall c, r = Some c -> get b c = 0) /\
    g' = match r with Some _ => advance 1 g | None => g end.
Proof. exact (pick_cell_randomly_cases b g). Qed.

(** X3: every empty cell can be the one [pick_cell_randomly] returns. *)
Theorem pick_cell_randomly_reaches_every_empty_cell (b : Board) (c : cell) :
  get b c = 0 ->
  exists g, pick_cell_randomly b g = Some (Some c, advance 1 g).
Proof.
  intros Hc. apply find_available_cells_In in Hc.
  destruct (In_nth_error _ _ Hc) as (n & Hn).
  assert (Hlt : (n < length (find_available_cells b))%nat).
  { apply nth_error_Some. congruence. }
  exists {| draws := fun _ => n; cursor := 0 |}.
  unfold pick_cell_randomly.
  destruct (find_available_cells b) as [|c0 l]; [simpl in Hlt; lia|].
  cbn [length Nat.ltb Nat.leb]. unfold bind, randint, ret. cbn [draws cursor].
  replace (0 + n mod (S (length l) - 1 - 0 + 1))%nat with n.
  - now rewrite Hn.
  - replace (S (length l) - 1 - 0 + 1)%nat with (S (length l)) by lia.
    cbn [length] in Hlt. rewrite Nat.mod_small; lia.
Qed.

Lemma pick_cell_randomly_reaches_every_empty_cell_witness :
  exists g, pick_cell_randomly board_threat_row1 g = Some (Some (I2, I1), advance 1 g).
Proof.
  apply (pick_cell_randomly_reaches_every_empty_cell board_threat_row1 (I2, I1)).
  reflexivity.
Defined.

Lemma filter_conj {A} (f1 f2 h : A -> bool) (l : list A) :
  (forall x, f1 x = f2 x && h x) -> filter f1 l = filter h (filter f2 l).
Proof.
  intros H. induction l as [|x l IH]; simpl; auto.
  rewrite H. destruct (f2 x); simpl; [destruct (h x)|]; now rewrite IH.
Qed.

Lemma NoDup_cells : NoDup cells.
Proof.
  unfold cells, indices. simpl.
  repeat (constructor; [simpl; intuition discriminate|]). constructor.
Qed.

Lemma filter_out_one_length (l : list cell) (c : cell) :
  NoDup l -> In c l ->
  S (length (filter (fun d => negb (cell_eqb d c)) l)) = length l.
Proof.
  induction 1 as [|x l Hx Hnd IH]; intros Hin; [contradiction|].
  simpl. destruct (cell_eqb x c) eqn:E.
  - apply cell_eqb_eq in E. subst x. simpl. f_equal.
    clear IH Hin Hnd. induction l as [|y l IHl]; simpl; auto.
    destruct (cell_eqb y c) eqn:Ey.
    + apply cell_eqb_eq in Ey. subst y. exfalso. apply Hx. now left.
    + simpl. f_equal. apply IHl. intros H. apply Hx. now right.
  - simpl. f_equal. apply IH. destruct Hin as [->|Hin]; auto.
    rewrite (proj2 (cell_eqb_eq c c) eq_refl) in E. discriminate.
Qed.

Lemma find_available_cells_assign (b : Board) (c : cell) (p : Player) :
  property_value p <> 0 ->
  find_available_cells (assign_cell b c p)
  = filter (fun d => negb (cell_eqb d c)) (find_available_cells b).
Proof.
  intros Hp. unfold find_available_cells. apply filter_conj. intros d.
  destruct (cell_eqb d c) eqn:E.
  - apply cell_eqb_eq in E. subst d. rewrite assign_cell_same.
    apply Z.eqb_neq in Hp. rewrite Hp. now rewrite andb_false_r.
  - rewrite assign_cell_other, andb_true_r; auto.
    intros ->. rewrite (proj2 (cell_eqb_eq d d) eq_refl) in E. discriminate.
Qed.

(** X4: writing a non-zero value on a cell takes that cell, and no other,
    out of the available cells, and keeps their order. *)
Theorem find_available_cells_after_assign (b : Board) (c : cell) (p : Player) :
  property_value p <> 0 ->
  find_available_cells (assign_cell b c p)
  = filter (fun d => negb (cell_eqb d c)) (find_available_cells b).
Proof. exact (find_available_cells_assign b c p). Qed.

Lemma find_available_cells_after_assign_witness :
  find_available_cells (assign_cell board_threat_row1 (I1, I2) P1)
  = filter (fun d => negb (cell_eqb d (I1, I2))) (find_available_cells board_threat_row1).
Proof.
  apply (find_available_cells_after_assign board_threat_row1 (I1, I2) P1).
  simpl. discriminate.
Defined.

(** X5: a move of [fill_cell] that is not [FULL] fills exactly one empty
    cell when the player's value is not 0: the board has one available cell
    less afterwards. *)
Theorem fill_cell_fills_exactly_one_cell (b : Board) (p : Player) (g : RandomSource) :
  property_value p <> 0 ->
  exists st b' g',
    fill_cell b p g = Some ((st, b'), g') /\
    (st <> FULL ->
     S (length (find_available_cells b')) = length (find_available_cells b)).
Proof.
  intros Hp.
  destruct (fill_cell_spec b p g) as (st & b' & g' & Hrun & Hpost).
  exists st, b', g'. split; [exact Hrun|]. intros Hst.
  assert (H : exists c, b' = assign_cell b c p /\ available b c).
  { destruct st; simpl in Hpost; try congruence.
    - destruct Hpost as (c & E & Hc & _). now exists c.
    - destruct Hpost as (_ & c & E & Hc & _). now exists c.
    - destruct Hpost as (_ & _ & c & E & Hc). now exists c. }
  destruct H as (c & -> & Hc).
  rewrite find_available_cells_assign by assumption.
  apply filter_out_one_length.
  - apply NoDup_filter, NoDup_cells.
  - now apply find_available_cells_In.
Qed.

Lemma fill_cell_fills_exactly_one_cell_witness :
  exists st b' g',
    fill_cell board_threat_row1 P1 zero_tape = Some ((st, b'), g') /\
    (st <> FULL ->
     S (length (find_available_cells b'))
     = length (find_available_cells board_threat_row1)).
Proof.
  apply (fill_cell_fills_exactly_one_cell board_threat_row1 P1 zero_tape).
  simpl. discriminate.
Defined.

(** X6: the status of [fill_cell] is decided by the board and the player,
    not by the draws: [OFFENSE] exactly when the player has a winning cell,
    [DEFENSE] exactly when the player has none and the opponent has one,
    [RANDOM] exactly when neither has one and a cell is empty, [FULL]
    exactly when no cell is empty.  The player's value is not the 101 of
    tried cells. *)
Theorem fill_cell_status_by_board (b : Board) (p : Player) (g : RandomSource) :
  property_value p <> property_value attempts_tracker ->
  exists st b' g',
    fill_cell b p g = Some ((st, b'), g') /\
    (st = OFFENSE <-> has_winning_placement b p) /\
    (st = DEFENSE <->
     ~ has_winning_placement b p /\ has_winning_placement b (opponent_player p)) /\
    (st = RANDOM <->
     ~ has_winning_placement b p /\ ~ has_winning_placement b (opponent_player p) /\
     exists c, get b c = 0) /\
    (st = FULL <-> forall c, get b c <> 0).
Proof.
  intros Hp.
  destruct (fill_cell_spec b p g) as (st & b' & g' & Hrun & Hpost).
  exists st, b', g'. split; [exact Hrun|].
  assert (Hplace : forall q, has_winning_placement b q -> exists c, get b c = 0).
  { intros q (c & Hc & _). now exists c. }
  destruct st; simpl in Hpost.
  - destruct Hpost as (c & -> & Hc & Hw). specialize (Hw Hp).
    assert (Hhas : has_winning_placement b p) by (exists c; auto).
    repeat split; auto; try discriminate; try tauto.
    intros Hnone. now apply Hnone in Hc.
  - destruct Hpost as (Hno & c & -> & Hc & Hw).
    assert (Hopp : has_winning_placement b (opponent_player p)) by (exists c; auto).
    repeat split; auto; try discriminate; try tauto.
    intros Hnone. now apply Hnone in Hc.
  - destruct Hpost as (Hno & Hnoopp & c & -> & Hc).
    repeat split; auto; try discriminate; try tauto.
    + now exists c.
    + intros Hnone. now apply Hnone in Hc.
  - destruct Hpost as [-> Hfull]. unfold available in Hfull.
    repeat split; auto; try discriminate.
    + intros H. destruct (Hplace _ H) as (c & Hc). now apply Hfull in Hc.
    + intros [_ H]. destruct (Hplace _ H) as (c & Hc). now apply Hfull in Hc.
    + intros (_ & _ & c & Hc). now apply Hfull in Hc.
Qed.

Lemma fill_cell_status_by_board_witness :
  exists st b' g',
    fill_cell board_threat_row1 P1 zero_tape = Some ((st, b'), g') /\
    (st = OFFENSE <-> has_winning_placement board_threat_row1 P1) /\
    (st = DEFENSE <->
     ~ has_winning_placement board_threat_row1 P1 /\
     has_winning_placement board_threat_row1 (opponent_player P1)) /\
    (st = RANDOM <->
     ~ has_winning_placement board_threat_row1 P1 /\
     ~ has_winning_placement board_threat_row1 (opponent_player P1) /\
     exists c, get board_threat_row1 c = 0) /\
    (st = FULL <-> forall c, get board_threat_row1 c <> 0).
Proof.
  apply (fill_cell_status_by_board board_threat_row1 P1 zero_tape).
  simpl. discriminate.
Defined.

(** X7: when [fill_cell] makes a move, it reports [OFFENSE] exactly when
    the player has three in a line on the board after the move: a
    [DEFENSE] or [RANDOM] move never completes a line of the mover.  The
    player's value is not the 101 of tried cells. *)
Theorem fill_cell_offense_iff_mover_wins (b : Board) (p : Player) (g : RandomSource) :
  property_value p <> property_value attempts_tracker ->
  exists st b' g',
    fill_cell b p g = Some ((st, b'), g') /\
    (st <> FULL -> (st = OFFENSE <-> check_winner b' p = true)).
Proof.
  intros Hp.
  destruct (fill_cell_spec b p g) as (st & b' & g' & Hrun & Hpost).
  exists st, b', g'. split; [exact Hrun|]. intros Hst.
  destruct st; simpl in Hpost; try congruence.
  - destruct Hpost as (c & -> & Hc & Hw). split; auto.
  - destruct Hpost as (Hno & c & -> & Hc & _). split; [discriminate|].
    intros Hw. exfalso. apply Hno. now exists c.
  - destruct Hpost as (Hno & _ & c & -> & Hc). split; [discriminate|].
    intros Hw. exfalso. apply Hno. now exists c.
Qed.

Lemma fill_cell_offense_iff_mover_wins_witness :
  exists st b' g',
    fill_cell board_two_in_row0 P1 zero_tape = Some ((st, b'), g') /\
    (st <> FULL -> (st = OFFENSE <-> check_winner b' P1 = true)).
Proof.
  apply (fill_cell_offense_iff_mover_wins board_two_in_row0 P1 zero_tape).
  simpl. discriminate.
Defined.

(** X8: a move never undoes a win.  If a player with a non-zero value has
    three in a line, the same holds after [fill_cell] has moved for any
    player. *)
Theorem fill_cell_keeps_wins (b : Board) (p w : Player) (g : RandomSource) :
  property_value w <> 0 ->
  check_winner b w = true ->
  exists st b' g',
    fill_cell b p g = Some ((st, b'), g') /\ check_winner b' w = true.
Proof.
  intros Hw Hwon.
  destruct (fill_cell_spec b p g) as (st & b' & g' & Hrun & Hpost).
  exists st, b', g'. split; [exact Hrun|].
  assert (H : b' = b \/ exists c, b' = assign_cell b c p /\ available b c).
  { destruct st; simpl in Hpost.
    - destruct Hpost as (c & E & Hc & _). right. now exists c.
    - destruct Hpost as (_ & c & E & Hc & _). right. now exists c.
    - destruct Hpost as (_ & _ & c & E & Hc). right. now exists c.
    - left. tauto. }
  destruct H as [->|(c & -> & Hc)]; [exact Hwon|].
  revert Hwon. apply check_winner_mono. intros d Hd.
  destruct (cell_eq_dec c d) as [<-|Hne].
  - unfold available in Hc. congruence.
  - now rewrite assign_cell_other.
Qed.

Lemma fill_cell_keeps_wins_witness :
  exists st b' g',
    fill_cell (assign_cell board_two_in_row0 (I0, I2) P1) P2 zero_tape
    = Some ((st, b'), g') /\
    check_winner b' P1 = true.
Proof.
  apply (fill_cell_keeps_wins (assign_cell board_two_in_row0 (I0, I2) P1) P2 P1 zero_tape).
  - simpl. discriminate.
  - reflexivity.
Defined.

(** X9: [random_move] succeeds exactly when the board has an empty cell.  It
    then writes the player's value on one empty cell and draws one number;
    otherwise it leaves the board as it is and draws nothing. *)
Theorem random_move_fills_an_empty_cell (b : Board) (p : Player) (g : RandomSource) :
  exists moved b' g',
    random_move b p g = Some ((moved, b'), g') /\
    (moved = true <-> exists c, get b c = 0) /\
    (moved = true ->
     exists c, get b c = 0 /\ b' = assign_cell b c p /\ g' = advance 1 g) /\
    (moved = false -> b' = b /\ g' = g).
Proof.
  destruct (pick_cell_randomly_cases b g)
    as (r & g1 & Hpick & Hnone & Hsome & Hg).
  unfold random_move, bind. rewrite Hpick.
  destruct r as [c|]; unfold ret.
  - exists true, (assign_cell b c p), g1. split; auto.
    specialize (Hsome c eq_refl). repeat split; try discriminate.
    + intros _. now exists c.
    + intros _. exists c. auto.
  - exists false, b, g1. split; auto.
    assert (Hfull : forall c, get b c <> 0) by now apply Hnone.
    repeat split; auto; try discriminate.
    intros (c & Hc). now apply Hfull in Hc.
Qed.

(** X10: [offensive_move] succeeds exactly when some empty cell wins for
    the player.  It then writes the player's value on an empty cell where
    the player wins; otherwise the board is left as it is.  The player's
    value is not the 101 of tried cells. *)
Theorem offensive_move_finds_a_win (b : Board) (p : Player) (g : RandomSource) :
  property_value p <> property_value attempts_tracker ->
  exists won b' g',
    offensive_move b p g = Some ((won, b'), g') /\
    (won = true <-> has_winning_placement b p) /\
    (won = true ->
     exists c, get b c = 0 /\ b' = assign_cell b c p /\ check_winner b' p = true) /\
    (won = false -> b' = b).
Proof.
  intros Hp.
  destruct (offensive_move_spec b p g) as (r & g' & Hrun & H).
  destruct H as [(c & -> & Hc & Hw)|[-> Hno]].
  - exists true, (assign_cell b c p), g'. split; auto.
    specialize (Hw Hp). repeat split; try discriminate.
    + intros _. now exists c.
    + intros _. exists c. auto.
  - exists false, b, g'. split; auto.
    repeat split; auto; try discriminate; try contradiction.
Qed.

Lemma offensive_move_finds_a_win_witness :
  exists won b' g',
    offensive_move board_two_in_row0 P1 zero_tape = Some ((won, b'), g') /\
    (won = true <-> has_winning_placement board_two_in_row0 P1) /\
    (won = true ->
     exists c, get board_two_in_row0 c = 0 /\ b' = assign_cell board_two_in_row0 c P1 /\
               check_winner b' P1 = true) /\
    (won = false -> b' = board_two_in_row0).
Proof.
  apply (offensive_move_finds_a_win board_two_in_row0 P1 zero_tape).
  simpl. discriminate.
Defined.

(** ** A game between two bots *)

Lemma fill_cell_post_of_run (b : Board) (p : Player) (g : RandomSource)
    (st : Status) (b' : Board) (g' : RandomSource) :
  fill_cell b p g = Some ((st, b'), g') -> fill_cell_post b p st b'.
Proof.
  intros H. destruct (fill_cell_spec b p g) as (st0 & b0 & g0 & Hrun & Hpost).
  rewrite Hrun in H. inversion H; subst. exact Hpost.
Qed.

Lemma fill_cell_one_assignment (b : Board) (p : Player) (g : RandomSource)
    (st : Status) (b' : Board) (g' : RandomSource) :
  fill_cell b p g = Some ((st, b'), g') ->
  b' = b \/ exists c, b' = assign_cell b c p /\ available b c.
Proof.
  intros H. apply fill_cell_post_of_run in H.
  destruct st; simpl in H.
  - destruct H as (c & E & Hc & _). right. now exists c.
  - destruct H as (_ & c & E & Hc & _). right. now exists c.
  - destruct H as (_ & _ & c & E & Hc). right. now exists c.
  - left. tauto.
Qed.

Lemma valid_board_full_zero : valid_board (full 0).
Proof. intros c. rewrite get_full. now left. Qed.

Lemma valid_board_set (b : Board) (c : cell) (v : Z) :
  valid_board b -> mark_value v -> valid_board (set b c v).
Proof.
  intros Hb Hv d. destruct (cell_eq_dec c d) as [<-|Hd].
  - now rewrite get_set_same.
  - rewrite get_set_other by assumption. apply Hb.
Qed.

Lemma player_mark_value (p : Player) :
  p = P1 \/ p = P2 -> mark_value (property_value p) /\ property_value p <> 0
                      /\ property_value p <> 101.
Proof. intros [-> | ->]; unfold mark_value; simpl; repeat split; auto; discriminate. Qed.

Lemma choose_board_cases (fuel : nat) :
  forall mb res g mb' res' pos' g',
    choose_board fuel mb res g = Some ((mb', res', pos'), g') ->
    get res' pos' = 0 /\
    ((mb' = mb /\ res' = res)
     \/ (mb' = set mb pos' create_board /\ res' = set res pos' 0)).
Proof.
  induction fuel as [|fuel IH]; intros mb res g mb' res' pos' g' H; [discriminate|].
  rewrite choose_board_step in H. cbv zeta in H.
  destruct (is_board_complete res).
  - inversion H; subst. split; [apply get_set_same|now right].
  - destruct (get res (attempt g 0) =? 0) eqn:E0.
    + inversion H; subst. apply Z.eqb_eq in E0. auto.
    + now apply IH in H.
Qed.

Lemma consistent_reset (mb : MetaBoard) (res : Board) (pos : cell) :
  consistent mb res -> consistent (set mb pos create_board) (set res pos 0).
Proof.
  intros (Hb & Hr & Hd). split; [|split].
  - intros d. destruct (cell_eq_dec pos d) as [<-|Hne].
    + rewrite get_set_same. apply valid_board_full_zero.
    + rewrite get_set_other by assumption. apply Hb.
  - apply valid_board_set; auto. now left.
  - intros d w Hw. destruct (cell_eq_dec pos d) as [<-|Hne].
    + rewrite get_set_same. congruence.
    + rewrite !get_set_other by assumption. now apply Hd.
Qed.

Lemma consistent_initial : consistent initial_meta_board initial_meta_board_results.
Proof.
  split; [|split].
  - intros pos. unfold initial_meta_board. rewrite get_full. apply valid_board_full_zero.
  - apply valid_board_full_zero.
  - intros pos w Hw. unfold initial_meta_board_results. rewrite get_full. congruence.
Qed.

(** A move on consistent boards leaves them consistent. *)
Lemma take_turn_invariant (depth : nat) (mb : MetaBoard) (res : Board)
    (previous : option Player) (g : RandomSource) (s' : GameState) (g' : RandomSource) :
  consistent mb res ->
  take_turn depth mb res previous g = Some (s', g') ->
  game_invariant s'.
Proof.
  intros Hcons H. apply take_turn_inv in H.
  destruct H as (player & g1 & mb1 & res1 & pos & g2 & st & b' & Hpl & Hcb & Hfill & ->).
  assert (Hplayer : player = P1 \/ player = P2).
  { assert (Hnth : forall k, nth k [P1; P2] P1 = P1 \/ nth k [P1; P2] P1 = P2)
      by (intros [|[|[|k]]]; simpl; auto).
    destruct previous as [q|]; cbn [choose_player] in Hpl.
    - destruct (property_value q =? 1); inversion Hpl; auto.
    - unfold choice in Hpl. inversion Hpl. apply Hnth. }
  destruct (player_mark_value player Hplayer) as (Hmark & Hnz & Hnt).
  apply choose_board_cases in Hcb. destruct Hcb as [Hopen Hcb].
  assert (Hcons1 : consistent mb1 res1).
  { destruct Hcb as [[-> ->]|[-> ->]]; auto using consistent_reset. }
  destruct Hcons1 as (Hb & Hr & Hd).
  pose proof (fill_cell_post_of_run _ _ _ _ _ _ Hfill) as Hpost.
  apply fill_cell_one_assignment in Hfill.
  assert (Hvalid' : valid_board b').
  { destruct Hfill as [->|(c & -> & _)]; [apply Hb|].
    apply valid_board_set; auto. }
  unfold game_invariant. cbn [meta_board meta_board_results current_player
                               current_board_pos status].
  split; [|split; [exact Hplayer|split; [exact Hopen|]]].
  - split; [|split; [exact Hr|]].
    + intros d. destruct (cell_eq_dec pos d) as [<-|Hne].
      * now rewrite get_set_same.
      * rewrite get_set_other by assumption. apply Hb.
    + intros d w Hw Hres. destruct (cell_eq_dec pos d) as [<-|Hne].
      * congruence.
      * rewrite get_set_other by assumption. now apply Hd.
  - intros ->. rewrite get_set_same. simpl in Hpost.
    destruct Hpost as (c & -> & _ & Hw). now apply Hw.
Qed.

Lemma resolve_consistent (s : GameState) :
  game_invariant s ->
  let '(mb, res) := resolve (meta_board s) (meta_board_results s)
                      (current_board_pos s) (status s) (current_player s) in
  consistent mb res.
Proof.
  intros (Hcons & Hplayer & Hopen & Hoff).
  destruct (player_mark_value _ Hplayer) as (Hmark & Hnz & _).
  destruct (status s); unfold resolve, reset_board, update_meta_results; auto.
  - destruct Hcons as (Hb & Hr & Hd). split; [exact Hb|split].
    + now apply valid_board_set.
    + intros d w Hw. destruct (cell_eq_dec (current_board_pos s) d) as [<-|Hne].
      * rewrite get_set_same. intros E.
        rewrite <- (check_winner_value _ (current_player s) w E). now apply Hoff.
      * rewrite get_set_other by assumption. now apply Hd.
  - now apply consistent_reset.
Qed.

Lemma loop_body_invariant (depth : nat) (s : GameState) (g : RandomSource)
    (s' : GameState) (g' : RandomSource) :
  game_invariant s -> loop_body depth s g = Some (s', g') -> game_invariant s'.
Proof.
  intros Hinv H. unfold loop_body in H.
  pose proof (resolve_consistent s Hinv) as Hcons.
  destruct (resolve _ _ _ _ _) as [mb res].
  eapply take_turn_invariant; eauto.
Qed.

Lemma bots_turns_invariant (n depth : nat) :
  forall s g s' g',
    game_invariant s -> bots_turns n depth s g = Some (s', g') -> game_invariant s'.
Proof.
  induction n as [|n IH]; intros s g s' g' Hinv H.
  - inversion H; subst. exact Hinv.
  - cbn [bots_turns] in H.
    destruct (nobody_won (meta_board_results s)); [|discriminate].
    unfold bind in H. destruct (loop_body depth s g) as [[s1 g1]|] eqn:Hbody; [|discriminate].
    eapply IH; [|exact H]. eapply loop_body_invariant; eauto.
Qed.

Lemma bots_loop_invariant (turns depth : nat) :
  forall s g s' g',
    game_invariant s -> bots_loop turns depth s g = Some (s', g') -> game_invariant s'.
Proof.
  induction turns as [|turns IH]; intros s g s' g' Hinv H; cbn [bots_loop] in H;
    destruct (nobody_won (meta_board_results s)); try discriminate;
    try (inversion H; subst; exact Hinv).
  unfold bind in H. destruct (loop_body depth s g) as [[s1 g1]|] eqn:Hbody; [|discriminate].
  eapply IH; [|exact H]. eapply loop_body_invariant; eauto.
Qed.

(** Every state in which the loop tests the winner, and the state in which
    the game ends, satisfy the invariant. *)
Lemma reached_state_invariant (depth : nat) (g : RandomSource) (s : GameState) :
  reached depth g s -> game_invariant s.
Proof.
  intros [(n & g' & H)|(turns & g' & H)];
    unfold bots_after, play_meta_game_bots_run, bind in H;
    destruct (take_turn depth initial_meta_board initial_meta_board_results None g)
      as [[s0 g0]|] eqn:Hfirst; try discriminate;
    apply take_turn_invariant in Hfirst; auto using consistent_initial.
  - eapply bots_turns_invariant; eauto.
  - eapply bots_loop_invariant; eauto.
Qed.

(** X11: in every state a game reaches, each cell of each instance board
    and each meta result holds 0, 1 or -1 (the 101 of the searches never
    gets onto a board), and the current player is [P1] or [P2]. *)
Theorem bots_game_cells_hold_marks (depth : nat) (g : RandomSource) (s : GameState) :
  reached depth g s ->
  (forall pos c, mark_value (get (get (meta_board s) pos) c)) /\
  (forall pos, mark_value (get (meta_board_results s) pos)) /\
  (current_player s = P1 \/ current_player s = P2).
Proof.
  intros H. apply reached_state_invariant in H.
  destruct H as ((Hb & Hr & _) & Hp & _). repeat split; auto.
Qed.

Lemma bots_game_cells_hold_marks_witness :
  exists s,
    reached 5 zero_tape s /\
    (forall pos c, mark_value (get (get (meta_board s) pos) c)) /\
    (forall pos, mark_value (get (meta_board_results s) pos)) /\
    (current_player s = P1 \/ current_player s = P2).
Proof.
  eexists. split.
  - left. exists 3%nat. eexists. vm_compute. reflexivity.
  - apply (bots_game_cells_hold_marks 5 zero_tape).
    left. exists 3%nat. eexists. vm_compute. reflexivity.
Defined.

(** X12: in every state a game reaches, a meta result is 1 only where
    [P1] has three in a line on the instance board, and -1 only where [P2]
    has. *)
Theorem bots_game_meta_result_has_won_board (depth : nat) (g : RandomSource)
    (s : GameState) :
  reached depth g s ->
  forall pos,
    (get (meta_board_results s) pos = 1 ->
     check_winner (get (meta_board s) pos) P1 = true) /\
    (get (meta_board_results s) pos = -1 ->
     check_winner (get (meta_board s) pos) P2 = true).
Proof.
  intros H pos. apply reached_state_invariant in H.
  destruct H as ((_ & _ & Hd) & _).
  split; intros E; apply Hd; simpl; auto; discriminate.
Qed.

Lemma bots_game_meta_result_has_won_board_witness :
  exists s g',
    play_meta_game_bots_run 300 60 lcg_tape = Some (s, g') /\
    forall pos,
      (get (meta_board_results s) pos = 1 ->
       check_winner (get (meta_board s) pos) P1 = true) /\
      (get (meta_board_results s) pos = -1 ->
       check_winner (get (meta_board s) pos) P2 = true).
Proof.
  eexists. eexists. split.
  - vm_compute. reflexivity.
  - apply (bots_game_meta_result_has_won_board 60 lcg_tape).
    right. exists 300%nat. eexists. vm_compute. reflexivity.
Defined.

Lemma take_turn_player (depth : nat) (mb : MetaBoard) (res : Board) (p : Player)
    (g : RandomSource) (s' : GameState) (g' : RandomSource) :
  take_turn depth mb res (Some p) g = Some (s', g') ->
  current_player s' = opponent_player p.
Proof.
  intros H. apply take_turn_inv in H.
  destruct H as (player & g1 & mb1 & res1 & pos & g2 & st & b' & Hpl & _ & _ & ->).
  cbn [choose_player current_player] in *. unfold opponent_player.
  destruct (property_value p =? 1); inversion Hpl; reflexivity.
Qed.

Lemma loop_body_player (depth : nat) (s : GameState) (g : RandomSource)
    (s' : GameState) (g' : RandomSource) :
  loop_body depth s g = Some (s', g') ->
  current_player s' = opponent_player (current_player s).
Proof.
  unfold loop_body. destruct (resolve _ _ _ _ _) as [mb res].
  apply take_turn_player.
Qed.

(** One more turn of the loop, taken last. *)
Lemma bots_turns_snoc (n depth : nat) :
  forall s g s' g',
    bots_turns (S n) depth s g = Some (s', g') ->
    exists s1 g1,
      bots_turns n depth s g = Some (s1, g1) /\
      nobody_won (meta_board_results s1) = true /\
      loop_body depth s1 g1 = Some (s', g').
Proof.
  induction n as [|n IH]; intros s g s' g' H.
  - cbn [bots_turns] in H. exists s, g.
    destruct (nobody_won (meta_board_results s)); [|discriminate].
    unfold bind in H. destruct (loop_body depth s g) as [[s1 g1]|]; [|discriminate].
    inversion H; subst. auto.
  - remember (S n) as m. cbn [bots_turns] in H.
    destruct (nobody_won (meta_board_results s)) eqn:Hopen; [|discriminate].
    unfold bind in H. destruct (loop_body depth s g) as [[s0 g0]|] eqn:Hbody; [|discriminate].
    subst m. apply IH in H. destruct H as (s1 & g1 & Hrun & Hopen1 & Hlast).
    exists s1, g1. split; auto.
    cbn [bots_turns]. rewrite Hopen. unfold bind. rewrite Hbody. exact Hrun.
Qed.

(** X13: turns alternate strictly.  The player of each turn of the loop is
    the opponent of the player of the turn before, whatever board was
    chosen and whatever the status of the moves; the two are different
    players among [P1] and [P2]. *)
Theorem bots_game_players_alternate (n depth : nat) (g : RandomSource)
    (s s' : GameState) (g1 g2 : RandomSource) :
  bots_after n depth g = Some (s, g1) ->
  bots_after (S n) depth g = Some (s', g2) ->
  current_player s' = opponent_player (current_player s) /\
  property_value (current_player s') = - property_value (current_player s).
Proof.
  intros Hn HSn.
  assert (Hinv : game_invariant s).
  { apply (reached_state_invariant depth g). left. now exists n, g1. }
  unfold bots_after, bind in *.
  destruct (take_turn depth initial_meta_board initial_meta_board_results None g)
    as [[s0 g0]|]; [|discriminate].
  apply bots_turns_snoc in HSn. destruct HSn as (s1 & g1' & Hrun & _ & Hbody).
  rewrite Hn in Hrun. inversion Hrun; subst s1 g1'.
  apply loop_body_player in Hbody. split; [exact Hbody|].
  rewrite Hbody. destruct Hinv as (_ & [-> | ->] & _); reflexivity.
Qed.

Lemma bots_game_players_alternate_witness :
  exists s s' g1 g2,
    bots_after 2 5 zero_tape = Some (s, g1) /\
    bots_after 3 5 zero_tape = Some (s', g2) /\
    current_player s' = opponent_player (current_player s) /\
    property_value (current_player s') = - property_value (current_player s).
Proof.
  do 4 eexists. split; [vm_compute; reflexivity|]. split; [vm_compute; reflexivity|].
  eapply (bots_game_players_alternate 2 5 zero_tape); vm_compute; reflexivity.
Defined.

Lemma bots_loop_exit (turns depth : nat) :
  forall s g s' g',
    bots_loop turns depth s g = Some (s', g') ->
    nobody_won (meta_board_results s') = false.
Proof.
  induction turns as [|turns IH]; intros s g s' g' H; cbn [bots_loop] in H;
    destruct (nobody_won (meta_board_results s)) eqn:Hopen; try discriminate;
    try (inversion H; subst; exact Hopen).
  unfold bind in H. destruct (loop_body depth s g) as [[s1 g1]|]; [|discriminate].
  eapply IH; eauto.
Qed.

(** X14: when [play_meta_game_bots] returns a player, that player is [P1]
    or [P2] and has three in a line on the final meta results, the other
    player has not, and the returned player is not the one who made the
    last move of the game. *)
Theorem play_meta_game_bots_returns_the_winner (turns depth : nat) (g : RandomSource)
    (w : Player) (g' : RandomSource) :
  play_meta_game_bots turns depth g = Some (w, g') ->
  exists s,
    play_meta_game_bots_run turns depth g = Some (s, g') /\
    (w = P1 \/ w = P2) /\
    check_winner (meta_board_results s) w = true /\
    check_winner (meta_board_results s) (opponent_player w) = false /\
    current_player s = opponent_player w.
Proof.
  unfold play_meta_game_bots, bind. intros H.
  destruct (play_meta_game_bots_run turns depth g) as [[s gs]|] eqn:Hrun; [|discriminate].
  assert (Hg : gs = g').
  { destruct (check_winner (meta_board_results s) P2); inversion H; reflexivity. }
  subst gs. exists s. split; [reflexivity|].
  assert (Hclosed : nobody_won (meta_board_results s) = false).
  { unfold play_meta_game_bots_run, bind in Hrun.
    destruct (take_turn depth initial_meta_board initial_meta_board_results None g)
      as [[s0 g0]|]; [|discriminate].
    eapply bots_loop_exit; eauto. }
  destruct (finished_game_moves_after_win turns depth g s g' Hrun)
    as (s0 & g0 & Hopen & _ & _ & Hturn).
  pose proof (take_turn_player _ _ _ _ _ _ _ Hturn) as Hplayer.
  apply take_turn_inv in Hturn.
  destruct Hturn as (player & g1 & mb1 & res1 & pos & g2 & st & b' & _ & Hcb & _ & Hs).
  apply choose_board_results in Hcb.
  assert (Hres : meta_board_results s = res1) by (subst s; reflexivity).
  set (cp := current_player s0) in *.
  set (res0 := meta_board_results s0) in *.
  (* whoever has a line at the end has the value of the last resolved move *)
  assert (Hline : forall q, property_value q <> 0 ->
                            check_winner res0 q = false ->
                            check_winner (meta_board_results s) q = true ->
                            property_value cp = property_value q).
  { intros q Hq Hbefore Hafter. rewrite Hres in Hafter.
    eapply check_winner_new_line; [exact Hbefore|].
    destruct Hcb as [->| ->]; [exact Hafter|].
    eapply check_winner_before_emptying; eauto. }
  unfold nobody_won in Hopen, Hclosed.
  apply andb_true_iff in Hopen. destruct Hopen as [H1 H2].
  apply negb_true_iff in H1, H2.
  assert (Hv1 : check_winner (meta_board_results s) P1 = true -> property_value cp = 1).
  { intros E. apply (Hline P1); auto. simpl. discriminate. }
  assert (Hv2 : check_winner (meta_board_results s) P2 = true -> property_value cp = -1).
  { intros E. apply (Hline P2); auto. simpl. discriminate. }
  destruct (check_winner (meta_board_results s) P2) eqn:E2.
  - inversion H; subst w. specialize (Hv2 eq_refl).
    split; [now right|]. split; [exact E2|].
    change (opponent_player P2) with P1. split.
    + destruct (check_winner (meta_board_results s) P1); auto.
      specialize (Hv1 eq_refl). congruence.
    + rewrite Hplayer. unfold opponent_player. now rewrite Hv2.
  - inversion H; subst w. cbn [negb] in Hclosed. rewrite andb_true_r in Hclosed.
    apply negb_false_iff in Hclosed. specialize (Hv1 Hclosed).
    split; [now left|]. split; [exact Hclosed|].
    change (opponent_player P1) with P2. split; [exact E2|].
    rewrite Hplayer. unfold opponent_player. now rewrite Hv1.
Qed.

Lemma play_meta_game_bots_returns_the_winner_witness :
  exists s g',
    play_meta_game_bots_run 300 60 lcg_tape = Some (s, g') /\
    (P1 = P1 \/ P1 = P2) /\
    check_winner (meta_board_results s) P1 = true /\
    check_winner (meta_board_results s) (opponent_player P1) = false /\
    current_player s = opponent_player P1.
Proof.
  assert (H : exists g', play_meta_game_bots 300 60 lcg_tape = Some (P1, g')).
  { eexists. vm_compute. reflexivity. }
  destruct H as (g' & H).
  destruct (play_meta_game_bots_returns_the_winner 300 60 lcg_tape P1 g' H)
    as (s & Hs). exists s, g'. exact Hs.
Defined.

(** ** A game between a human and a bot *)

Lemma int_of_char_bound (c : ascii) (n : nat) :
  int_of_char c = Some n -> (n <= 9)%nat.
Proof.
  unfold int_of_char.
  destruct ((48 <=? nat_of_ascii c) && (nat_of_ascii c <=? 57))%nat eqn:E; [|discriminate].
  apply andb_true_iff in E. destruct E as [E1 E2].
  apply Nat.leb_le in E1, E2. intros H. inversion H. lia.
Qed.

(** X15: [read_coord] accepts a line exactly when its first and third
    characters are decimal digits, and returns the two digits; the second
    character and whatever follows the third are not looked at.  It never
    raises [EOFError], and raises [IndexError] exactly when the line is
    empty or starts with a digit and has fewer than three characters. *)
Theorem read_coord_accepts_two_digits (line : string) :
  (forall a b,
      read_coord line = inr (a, b) <->
      exists c0 c1 c2 rest,
        line = String c0 (String c1 (String c2 rest)) /\
        int_of_char c0 = Some a /\ int_of_char c2 = Some b) /\
  (forall a b, read_coord line = inr (a, b) -> (a <= 9)%nat /\ (b <= 9)%nat) /\
  read_coord line <> inl EOFError /\
  (read_coord line = inl IndexError <->
   line = EmptyString \/
   exists c0 a, int_of_char c0 = Some a /\ String.get 0 line = Some c0 /\
                (String.length line < 3)%nat).
Proof.
  assert (Hacc : forall a b,
             read_coord line = inr (a, b) <->
             exists c0 c1 c2 rest,
               line = String c0 (String c1 (String c2 rest)) /\
               int_of_char c0 = Some a /\ int_of_char c2 = Some b).
  { intros a b. unfold read_coord, int_at. split.
    - destruct line as [|c0 [|c1 [|c2 rest]]]; cbn [String.get]; try discriminate;
        destruct (int_of_char c0) as [a0|] eqn:E0; try discriminate.
      destruct (int_of_char c2) as [b0|] eqn:E2; try discriminate.
      intros H. inversion H; subst. exists c0, c1, c2, rest. auto.
    - intros (c0 & c1 & c2 & rest & -> & H0 & H2). cbn [String.get]. now rewrite H0, H2. }
  split; [exact Hacc|]. split; [|split].
  - intros a b H. apply Hacc in H.
    destruct H as (c0 & c1 & c2 & rest & _ & H0 & H2).
    split; eapply int_of_char_bound; eauto.
  - unfold read_coord, int_at.
    destruct line as [|c0 [|c1 [|c2 rest]]]; cbn [String.get]; try discriminate;
      destruct (int_of_char c0); try discriminate.
    destruct (int_of_char c2); discriminate.
  - unfold read_coord, int_at.
    destruct line as [|c0 [|c1 [|c2 rest]]]; cbn [String.get String.length].
    + split; auto.
    + destruct (int_of_char c0) as [a|] eqn:E0; split; try discriminate; auto.
      * intros _. right. exists c0, a. repeat split; auto.
      * intros [H|(c & a & Ha & Hc & _)]; [discriminate|].
        inversion Hc; subst. congruence.
    + destruct (int_of_char c0) as [a|] eqn:E0; split; try discriminate; auto.
      * intros _. right. exists c0, a. repeat split; auto.
      * intros [H|(c & a & Ha & Hc & _)]; [discriminate|].
        inversion Hc; subst. congruence.
    + destruct (int_of_char c0) as [a|] eqn:E0.
      * destruct (int_of_char c2); split; try discriminate;
          intros [H|(c & a' & _ & _ & Hlen)]; try discriminate; lia.
      * split; try discriminate.
        intros [H|(c & a' & _ & _ & Hlen)]; try discriminate; lia.
Qed.

Lemma typed_position_ok (line : string) (pos : cell) :
  typed_position line = inr pos ->
  exists coord, read_coord line = inr coord /\ index_pair coord = inr pos.
Proof.
  unfold typed_position. destruct (read_coord line) as [e|coord]; [discriminate|].
  intros H. now exists coord.
Qed.

(** X16: with two lines that select a board and a cell, the human's move
    writes the human's value on that cell whatever the cell holds (an
    occupied cell and a decided board are not refused), leaves every other
    cell of every board as it is, and uses up the two lines.  The meta
    result of the board becomes the human's value when the human then has
    three in a line on it, whatever it was; otherwise the meta results are
    unchanged. *)
Theorem human_move_overwrites_cell (mb : MetaBoard) (res : Board)
    (l1 l2 : string) (rest : list string) (board_pos cell_coord : cell) :
  typed_position l1 = inr board_pos ->
  typed_position l2 = inr cell_coord ->
  exists mb' res',
    human_move mb res (l1 :: l2 :: rest) = inr (mb', res', rest) /\
    get (get mb' board_pos) cell_coord = 1 /\
    (forall pos c, (pos, c) <> (board_pos, cell_coord) ->
                   get (get mb' pos) c = get (get mb pos) c) /\
    (check_winner (get mb' board_pos) human_player = true ->
     res' = set res board_pos 1) /\
    (check_winner (get mb' board_pos) human_player = false -> res' = res).
Proof.
  intros H1 H2.
  apply typed_position_ok in H1, H2.
  destruct H1 as (coord1 & Hr1 & Hi1). destruct H2 as (coord2 & Hr2 & Hi2).
  unfold human_move. rewrite Hr1, Hi1, Hr2, Hi2.
  set (b' := assign_cell (get mb board_pos) cell_coord human_player).
  eexists. eexists. split; [reflexivity|].
  rewrite get_set_same. split; [|split; [|split]].
  - subst b'. apply assign_cell_same.
  - intros pos c Hne. destruct (cell_eq_dec board_pos pos) as [<-|Hp].
    + rewrite get_set_same. subst b'. apply assign_cell_other. congruence.
    + now rewrite get_set_other.
  - intros ->. reflexivity.
  - intros ->. reflexivity.
Qed.

Lemma human_move_overwrites_cell_witness :
  exists mb' res',
    human_move (set initial_meta_board (I1, I1) board_tied)
      (set initial_meta_board_results (I1, I1) (-1)) ["1,1"; "0 1"; "2,2"]%string
    = inr (mb', res', ["2,2"%string]) /\
    get (get mb' (I1, I1)) (I0, I1) = 1 /\
    (forall pos c, (pos, c) <> ((I1, I1), (I0, I1)) ->
                   get (get mb' pos) c
                   = get (get (set initial_meta_board (I1, I1) board_tied) pos) c) /\
    (check_winner (get mb' (I1, I1)) human_player = true ->
     res' = set (set initial_meta_board_results (I1, I1) (-1)) (I1, I1) 1) /\
    (check_winner (get mb' (I1, I1)) human_player = false ->
     res' = set initial_meta_board_results (I1, I1) (-1)).
Proof.
  apply (human_move_overwrites_cell (set initial_meta_board (I1, I1) board_tied)
           (set initial_meta_board_results (I1, I1) (-1))
           "1,1" "0 1" ["2,2"%string] (I1, I1) (I0, I1)); reflexivity.
Defined.

Lemma human_move_consumes_two_lines (mb : MetaBoard) (res : Board)
    (inputs : list string) (mb' : MetaBoard) (res' : Board) (inputs' : list string) :
  human_move mb res inputs = inr (mb', res', inputs') -> inputs' = skipn 2 inputs.
Proof.
  unfold human_move. destruct inputs as [|l1 [|l2 rest]]; try discriminate.
  - destruct (read_coord l1); try discriminate. destruct (index_pair _); discriminate.
  - destruct (read_coord l1); try discriminate.
    destruct (index_pair _); try discriminate.
    destruct (read_coord l2); try discriminate.
    destruct (index_pair _); try discriminate.
    intros H. inversion H. reflexivity.
Qed.

(** X17: when a game with a human ends with a winner, the winner is the
    human or the bot and has three in a line on the meta results; the bot
    is the winner whenever the bot has three in a line, also when the
    human has three in a line too; and the game has read two lines for
    each turn played. *)
Theorem play_meta_game_winner (turns depth : nat) (inputs : list string)
    (g : RandomSource) (w : Player) (mb : MetaBoard) (res : Board)
    (rest : list string) :
  play_meta_game turns depth inputs g = Won w mb res rest ->
  (w = human_player \/ w = bot_player) /\
  check_winner res w = true /\
  (check_winner res bot_player = true <-> w = bot_player) /\
  exists n, (n <= turns)%nat /\ rest = skipn (2 * n) inputs.
Proof.
  unfold play_meta_game.
  generalize initial_meta_board as mb0, initial_meta_board_results as res0.
  revert inputs g.
  induction turns as [|turns IH]; intros inputs g mb0 res0 H; cbn [human_loop] in H;
    destruct (check_winner res0 human_player) eqn:Eh;
    destruct (check_winner res0 bot_player) eqn:Eb; cbn [negb andb] in H;
    try discriminate;
    try (inversion H; subst; rewrite ?Eb, ?Eh;
         repeat split; auto; try discriminate;
         exists 0%nat; split; [lia|reflexivity]).
  destruct (human_move mb0 res0 inputs) as [e|[[mb1 res1] inputs1]] eqn:Hh;
    [discriminate|].
  destruct (bot_move depth mb1 res1 g) as [[[mb2 res2] g2]|]; [|discriminate].
  apply IH in H. destruct H as (Hw & Hwin & Hbot & n & Hn & Hrest).
  repeat split; auto; try apply Hbot.
  exists (S n). split; [lia|].
  apply human_move_consumes_two_lines in Hh. subst inputs1.
  rewrite Hrest, skipn_skipn. f_equal. lia.
Qed.

Lemma play_meta_game_winner_witness :
  (human_player = human_player \/ human_player = bot_player) /\
  check_winner (board_of_rows (1, 1, 1) (0, 0, 0) (0, 0, 0)) human_player = true /\
  (check_winner (board_of_rows (1, 1, 1) (0, 0, 0) (0, 0, 0)) bot_player = true
   <-> human_player = bot_player) /\
  exists n, (n <= 20)%nat /\ [] = skipn (2 * n) lines_top_row.
Proof.
  assert (H : exists mb, play_meta_game 20 60 lines_top_row lcg_tape
                         = Won human_player mb
                               (board_of_rows (1, 1, 1) (0, 0, 0) (0, 0, 0)) []).
  { eexists. vm_compute. reflexivity. }
  destruct H as (mb & H).
  exact (play_meta_game_winner 20 60 lines_top_row lcg_tape human_player mb _ [] H).
Defined.

(** ** More on the meta game *)

(** X18: every position whose meta result is empty can be the one
    [choose_board] returns, at the first attempt and with boards and
    results untouched. *)
Theorem choose_board_reaches_every_undecided_position (mb : MetaBoard) (res : Board)
    (pos : cell) :
  get res pos = 0 ->
  exists g, choose_board 1 mb res g = Some ((mb, res, pos), advance 2 g).
Proof.
  intros Hpos. exists (tape_for_position pos).
  assert (Hinc : is_board_complete res = false).
  { apply is_board_complete_false_iff. now exists pos. }
  assert (Hat : attempt (tape_for_position pos) 0 = pos).
  { destruct pos as [[] []]; reflexivity. }
  rewrite choose_board_step. cbv zeta. rewrite Hinc, Hat.
  apply Z.eqb_eq in Hpos. now rewrite Hpos.
Qed.

Lemma choose_board_reaches_every_undecided_position_witness :
  exists g,
    choose_board 1 initial_meta_board results_corner_decided g
    = Some ((initial_meta_board, results_corner_decided, (I2, I1)), advance 2 g).
Proof.
  apply (choose_board_reaches_every_undecided_position initial_meta_board
           results_corner_decided (I2, I1)).
  reflexivity.
Defined.

(** X19: in every state a game between bots reaches, the last move was made
    on a position whose meta result is still empty, and when its status is
    [OFFENSE] the mover has three in a line on that instance board: a won
    board waits one turn to be recorded. *)
Theorem bots_game_last_move_on_open_position (depth : nat) (g : RandomSource)
    (s : GameState) :
  reached depth g s ->
  get (meta_board_results s) (current_board_pos s) = 0 /\
  (status s = OFFENSE ->
   check_winner (get (meta_board s) (current_board_pos s)) (current_player s) = true).
Proof.
  intros H. apply reached_state_invariant in H.
  destruct H as (_ & _ & Hopen & Hoff). auto.
Qed.

Lemma bots_game_last_move_on_open_position_witness :
  exists s,
    reached 60 lcg_tape s /\
    get (meta_board_results s) (current_board_pos s) = 0 /\
    (status s = OFFENSE ->
     check_winner (get (meta_board s) (current_board_pos s)) (current_player s) = true).
Proof.
  eexists. split.
  - left. exists 25%nat. eexists. vm_compute. reflexivity.
  - apply (bots_game_last_move_on_open_position 60 lcg_tape).
    left. exists 25%nat. eexists. vm_compute. reflexivity.
Defined.
